(** * anki-translator frontend: API gateway, session state and the
      card-creation workflow of the pages, embedded from the TypeScript
      sources.

    - [JS]             the JavaScript notions the sources rely on
                       (thrown values, settled promises, truthiness);
    - [Gateway]        [api/client.ts]: [setToken], [getToken], [request]
                       and the [api] table, over an explicit browser state
                       (credential, [localStorage], location, issued
                       fetches);
    - [App]            [App.tsx]: the route guard and the persisted deck id;
    - [Async]          bodies of [async] handlers as trees of writes and
                       awaits, one handler run to its end, and the mounted
                       component as a machine whose steps are clicks and
                       settlements;
    - [Api]            the collaborators as the pages call them;
    - [TranslatePage], [WordSelectPage]
                       the handlers and what each render offers;
    - [Samples]        the concrete sessions of the scenarios.

    The properties follow the definitions: gateway and session state,
    the translate page handler by handler, interleaved handlers, the word
    page, and the scenarios. *)

From Stdlib Require Import ZArith String List Bool Lia DecimalString.
From stdpp Require Import base option gmap strings list.
Import ListNotations.

Set Warnings "-register-all".

Local Open Scope string_scope.
Local Open Scope Z_scope.
Local Open Scope list_scope.

(* ===================================================================== *)
(** ** JavaScript notions                                                 *)
(* ===================================================================== *)

Module JS.

(** What a [catch (err)] clause can receive.  The pages only ask
    [err instanceof Error] and, when it is, read [err.message]. *)
Inductive Thrown : Type :=
| ErrorInstance (message : string)
| OtherValue.

(** A settled promise: the value an [await] returns, or what it throws. *)
Inductive Settled (A : Type) : Type :=
| Fulfilled (a : A)
| Rejected (e : Thrown).

Arguments Fulfilled {A} a.
Arguments Rejected {A} e.

(** Truthiness of a string: every string but the empty one. *)
Definition truthy_string (s : string) : bool :=
  negb (String.eqb s "").

(** [o] for a [string | null]: truthy when present and non-empty. *)
Definition truthy_opt (o : option string) : bool :=
  match o with
  | Some s => truthy_string s
  | None => false
  end.

(** [o || fallback] for a [string | undefined] *)
Definition or_else (o : option string) (fallback : string) : string :=
  match o with
  | Some s => if truthy_string s then s else fallback
  | None => fallback
  end.

(** [err instanceof Error ? err.message : fallback] *)
Definition message_or (err : Thrown) (fallback : string) : string :=
  match err with
  | ErrorInstance m => m
  | OtherValue => fallback
  end.

End JS.

Export JS.

(* ===================================================================== *)
(** ** API gateway ([api/client.ts])                                      *)
(* ===================================================================== *)

Module Gateway.

(** JSON numbers are IEEE doubles; the client never computes with them.
    It only asks whether a value is truthy and, for an error detail, what
    [String(value)] is, so the number type stays abstract.  The [TypeError]
    raised when a property of [null] or [undefined] is read has a text that
    differs between engines. *)
Class Runtime : Type := {
  number : Type;
  number_truthy : number -> bool;
  number_to_string : number -> string;
  null_property_error : Thrown
}.

Section Client.

Context {runtime : Runtime}.

(** A JavaScript value as [res.json()] can produce it, and [undefined].
    An object keeps its properties in insertion order; a parsed object has
    no repeated key and lookup takes the first binding. *)
Inductive Value : Type :=
| VUndefined
| VNull
| VBool (b : bool)
| VNum (n : number)
| VStr (s : string)
| VArr (items : list Value)
| VObj (props : list (string * Value)).

Fixpoint lookup_prop (k : string) (props : list (string * Value)) : option Value :=
  match props with
  | [] => None
  | (k', v) :: rest => if String.eqb k k' then Some v else lookup_prop k rest
  end.

(** [v.detail] *)
Definition detail_of (v : Value) : Settled Value :=
  match v with
  | VUndefined | VNull => Rejected null_property_error
  | VObj props =>
      Fulfilled (match lookup_prop "detail" props with
                 | Some d => d
                 | None => VUndefined
                 end)
  | VBool _ | VNum _ | VStr _ | VArr _ => Fulfilled VUndefined
  end.

(** The value owns a [detail] property. *)
Definition has_detail (v : Value) : bool :=
  match v with
  | VObj props => bool_decide (is_Some (lookup_prop "detail" props))
  | _ => false
  end.

Definition truthy (v : Value) : bool :=
  match v with
  | VUndefined | VNull => false
  | VBool b => b
  | VNum n => number_truthy n
  | VStr s => truthy_string s
  | VArr _ | VObj _ => true
  end.

(** [a || b] *)
Definition js_or (a b : Value) : Value :=
  if truthy a then a else b.

(** [String(v)]; an array joins its items with commas, [null] and
    [undefined] items giving the empty string. *)
Fixpoint to_string (v : Value) : string :=
  match v with
  | VUndefined => "undefined"
  | VNull => "null"
  | VBool true => "true"
  | VBool false => "false"
  | VNum n => number_to_string n
  | VStr s => s
  | VArr items =>
      let item (x : Value) : string :=
        match x with
        | VUndefined | VNull => ""
        | _ => to_string x
        end in
      (fix join (l : list Value) : string :=
         match l with
         | [] => ""
         | [x] => item x
         | x :: rest => item x +:+ "," +:+ join rest
         end) items
  | VObj _ => "[object Object]"
  end.

(** [new Error(v)]: the message is [String(v)] unless [v] is [undefined]. *)
Definition new_Error (v : Value) : Thrown :=
  ErrorInstance (match v with
                 | VUndefined => ""
                 | _ => to_string v
                 end).

(** *** Requests and responses *)

Inductive Body : Type :=
| BodyAbsent
| BodyJSON (data : Value)           (* JSON.stringify(data) *)
| BodyForm (parts : list (string * string)).   (* a FormData *)

Definition is_FormData (b : Body) : bool :=
  match b with
  | BodyForm _ => true
  | _ => false
  end.

Record RequestInit : Type := mkInit {
  init_method : option string;
  init_headers : gmap string string;     (* empty when absent *)
  init_body : Body
}.

Definition default_init : RequestInit :=
  mkInit None ∅ BodyAbsent.

Record FetchRequest : Type := mkFetch {
  url : string;
  req_method : option string;
  req_headers : gmap string string;
  req_body : Body
}.

Record Response : Type := mkResponse {
  status : Z;
  statusText : string;
  json : Settled Value     (* res.json(): the parsed body, or the rejection *)
}.

(** [res.ok] *)
Definition ok (res : Response) : bool :=
  (200 <=? status res) && (status res <=? 299).

(** *** Browser state seen by the client module *)

Record Browser : Type := mkBrowser {
  authToken : option string;
  localStorage : gmap string string;
  href : string;                       (* window.location.href *)
  fetched : list FetchRequest          (* every fetch issued, oldest first *)
}.

Definition with_authToken (t : option string) (w : Browser) : Browser :=
  mkBrowser t (localStorage w) (href w) (fetched w).

Definition with_localStorage (s : gmap string string) (w : Browser) : Browser :=
  mkBrowser (authToken w) s (href w) (fetched w).

Definition with_href (h : string) (w : Browser) : Browser :=
  mkBrowser (authToken w) (localStorage w) h (fetched w).

Definition with_fetched (l : list FetchRequest) (w : Browser) : Browser :=
  mkBrowser (authToken w) (localStorage w) (href w) l.

(** The module is evaluated once per page load:
    [let authToken = localStorage.getItem("token")]. *)
Definition load_module (storage : gmap string string) (location : string) : Browser :=
  mkBrowser (storage !! "token") storage location [].

Definition setToken (token : option string) (w : Browser) : Browser :=
  let w := with_authToken token w in
  if truthy_opt token then
    match token with
    | Some t => with_localStorage (<["token" := t]> (localStorage w)) w
    | None => w
    end
  else
    with_localStorage (delete "token" (localStorage w)) w.

Definition getToken (w : Browser) : option string :=
  authToken w.

Definition API_BASE : string := "/api".

(** The network: the settlement of the latest fetch, given every fetch
    issued so far (the latest last). *)
Definition Network : Type := list FetchRequest -> Settled Response.

Definition request_headers (options : RequestInit) (w : Browser) : gmap string string :=
  let headers := init_headers options in
  let headers :=
    match authToken w with
    | Some t =>
        if truthy_string t
        then <["Authorization" := "Bearer " +:+ t]> headers
        else headers
    | None => headers
    end in
  if is_FormData (init_body options)
  then headers
  else <["Content-Type" := "application/json"]> headers.

Definition fetch_of (path : string) (options : RequestInit) (w : Browser) : FetchRequest :=
  mkFetch (API_BASE +:+ path) (init_method options)
          (request_headers options w) (init_body options).

Definition request (network : Network) (path : string) (options : RequestInit)
  (w : Browser) : Settled Value * Browser :=
  let w := with_fetched (fetched w ++ [fetch_of path options w]) w in
  match network (fetched w) with
  | Rejected e => (Rejected e, w)
  | Fulfilled res =>
      if negb (ok res) then
        let error :=
          match json res with
          | Fulfilled v => v
          | Rejected _ => VObj [("detail", VStr (statusText res))]
          end in
        let w :=
          if (status res =? 401) && negb (String.prefix "/auth/login" path)
          then with_href "/login" (setToken None w)
          else w in
        match detail_of error with
        | Rejected e => (Rejected e, w)
        | Fulfilled detail =>
            (Rejected (new_Error (js_or detail (VStr (statusText res)))), w)
        end
      else if status res =? 204 then (Fulfilled VUndefined, w)
      else (json res, w)
  end.

(** *** The [api] table (the entries the pages below call) *)

(** An object literal handed to [JSON.stringify]: a property whose value is
    [undefined] is left out. *)
Definition literal (props : list (string * option Value)) : Value :=
  VObj (omap (fun '(k, o) => match o with
                             | Some v => Some (k, v)
                             | None => None
                             end) props).

Definition str (s : string) : option Value := Some (VStr s).

Definition opt_str (o : option string) : option Value := VStr <$> o.

Definition POST (data : Value) : RequestInit :=
  mkInit (Some "POST") ∅ (BodyJSON data).

Definition api_login (network : Network) (username password : string) :=
  request network "/auth/login"
    (POST (literal [("username", str username); ("password", str password)])).

Definition api_getMe (network : Network) :=
  request network "/auth/me" default_init.

Record TranslateData : Type := mkTranslateData {
  td_word : string;
  td_source_language : string;
  td_target_language : string;
  td_deck_id : option string;
  td_native_language : option string
}.

Definition translate_options (data : TranslateData) : RequestInit :=
  POST (literal [("word", str (td_word data));
                 ("source_language", str (td_source_language data));
                 ("target_language", str (td_target_language data));
                 ("deck_id", opt_str (td_deck_id data));
                 ("native_language", opt_str (td_native_language data))]).

Definition api_translate (network : Network) (data : TranslateData) :=
  request network "/translate" (translate_options data).

Definition api_createCard (network : Network) (data : Value) :=
  request network "/cards" (POST data).

Definition api_acceptCard (network : Network) (cardId : string) :=
  request network ("/cards/" +:+ cardId +:+ "/accept")
    (mkInit (Some "POST") ∅ BodyAbsent).

Definition api_checkDuplicate (network : Network) (word deck_id source_language : string) :=
  request network "/duplicates/check"
    (POST (literal [("word", str word); ("deck_id", str deck_id);
                    ("source_language", str source_language)])).

(** [result.translations] of a translate answer, when it is an array. *)
Definition translations_of (result : Value) : option (list Value) :=
  match result with
  | VObj props =>
      match lookup_prop "translations" props with
      | Some (VArr items) => Some items
      | _ => None
      end
  | _ => None
  end.

(** [api.ocr]: the file goes out as the ["file"] part of a [FormData]. *)
Definition ocr_options (file : string) : RequestInit :=
  mkInit (Some "POST") ∅ (BodyForm [("file", file)]).

Definition api_ocr (network : Network) (file : string) :=
  request network "/ocr" (ocr_options file).

End Client.

End Gateway.

(* ===================================================================== *)
(** ** The application shell ([App.tsx])                                  *)
(* ===================================================================== *)

Module App.

Import Gateway.

Inductive Rendered : Type :=
| Children                       (* the protected pages *)
| NavigateTo (path : string).

(** [ProtectedRoute] *)
Definition ProtectedRoute {runtime : Runtime} (w : Browser) : Rendered :=
  if negb (truthy_opt (getToken w)) then NavigateTo "/login" else Children.

(** [useState(localStorage.getItem("selectedDeckId") || "")] *)
Definition initial_selectedDeckId (storage : gmap string string) : string :=
  match storage !! "selectedDeckId" with
  | Some d => if truthy_string d then d else ""
  | None => ""
  end.

(** [setSelectedDeckId]: the new state and the new store. *)
Definition setSelectedDeckId (id : string) (storage : gmap string string)
  : string * gmap string string :=
  (id, <["selectedDeckId" := id]> storage).

(** The Logout link of [Header]:
    [setToken(null); window.location.href = "/login"]. *)
Definition logout {runtime : Runtime} (w : Browser) : Browser :=
  with_href "/login" (setToken None w).

End App.

(* ===================================================================== *)
(** ** Async functions of a React component                               *)
(* ===================================================================== *)

(** The body of an [async] handler is a tree: state-setter calls, awaited
    collaborator calls whose settlement picks the continuation, and an end
    that returns or throws.  A handler reads props and state from the
    render it was created in, so it is a function of that snapshot; what
    it does afterwards is writes and awaits only. *)

Module Async.

Section Programs.

Context {Call : Type -> Type} {Write : Type}.

Inductive Prog (A : Type) : Type :=
| Ret (a : A)
| Throw (e : Thrown)
| Do (w : Write) (k : Prog A)
| Await {R : Type} (c : Call R) (k : Settled R -> Prog A).

Arguments Ret {A} a.
Arguments Throw {A} e.
Arguments Do {A} w k.
Arguments Await {A R} c k.

(** [p; f] and [const x = await p; f x] *)
Fixpoint bind {A B : Type} (p : Prog A) (f : A -> Prog B) : Prog B :=
  match p with
  | Ret a => f a
  | Throw e => Throw e
  | Do w k => Do w (bind k f)
  | Await c k => Await c (fun r => bind (k r) f)
  end.

(** [try { p } catch (err) { h err }] *)
Fixpoint try_catch {A : Type} (p : Prog A) (h : Thrown -> Prog A) : Prog A :=
  match p with
  | Ret a => Ret a
  | Throw e => h e
  | Do w k => Do w (try_catch k h)
  | Await c k => Await c (fun r => try_catch (k r) h)
  end.

(** [try { p } finally { f }]: [f] runs on either exit, then the exit of
    [p] stands unless [f] itself throws. *)
Fixpoint finally {A : Type} (p : Prog A) (f : Prog unit) : Prog A :=
  match p with
  | Ret a => bind f (fun _ => Ret a)
  | Throw e => bind f (fun _ => Throw e)
  | Do w k => Do w (finally k f)
  | Await c k => Await c (fun r => finally (k r) f)
  end.

(** [await c]: the value, or the rejection thrown at the await. *)
Definition call {R : Type} (c : Call R) : Prog R :=
  Await c (fun r => match r with
                    | Fulfilled v => Ret v
                    | Rejected e => Throw e
                    end).

Definition set (w : Write) : Prog unit := Do w (Ret tt).

(** *** Shapes of handlers *)

(** [p] never awaits a call of kind [P]. *)
Fixpoint avoids (P : forall R : Type, Call R -> bool) {A : Type} (p : Prog A) : Prop :=
  match p with
  | Ret _ | Throw _ => True
  | Do _ k => avoids P k
  | Await c k => P _ c = false /\ forall r, avoids P (k r)
  end.

(** A flag of the state, seen from the writes: [touches w] is [Some b]
    when [w] sets the flag to [b].  [untouched p]: no write of [p] sets the
    flag.  [guarded held p]: started with the flag at [held], [p] awaits
    only while the flag is raised -- as a handler does that raises the
    flag first and lowers it in its [finally]. *)
Fixpoint untouched (touches : Write -> option bool) {A : Type} (p : Prog A) : Prop :=
  match p with
  | Ret _ | Throw _ => True
  | Do w k => touches w = None /\ untouched touches k
  | Await _ k => forall r, untouched touches (k r)
  end.

Fixpoint guarded (touches : Write -> option bool) (held : bool) {A : Type}
  (p : Prog A) : Prop :=
  match p with
  | Ret _ | Throw _ => True
  | Do w k => guarded touches (default held (touches w)) k
  | Await _ k => held = true /\ forall r, guarded touches true (k r)
  end.

(** *** One handler run from start to end *)

Inductive Event : Type :=
| Wrote (w : Write)
| Called {R : Type} (c : Call R).

(** The collaborators, answering each call. *)
Definition Env : Type := forall R : Type, Call R -> Settled R.

Context {State : Type} (apply : Write -> State -> State).

Record Outcome (A : Type) : Type := mkOutcome {
  result : Settled A;
  final : State;
  trace : list Event
}.

Arguments mkOutcome {A} result final trace.
Arguments result {A} o.
Arguments final {A} o.
Arguments trace {A} o.

Definition logged {A : Type} (e : Event) (o : Outcome A) : Outcome A :=
  mkOutcome (result o) (final o) (e :: trace o).

Fixpoint run {A : Type} (env : Env) (p : Prog A) (s : State) : Outcome A :=
  match p with
  | Ret a => mkOutcome (Fulfilled a) s []
  | Throw e => mkOutcome (Rejected e) s []
  | Do w k => logged (Wrote w) (run env k (apply w s))
  | Await c k => logged (Called c) (run env (k (env _ c)) s)
  end.

(** A click on a control: the handler of the current render runs. *)
Definition click (env : Env) (handler : State -> Prog unit) (s : State) : Outcome unit :=
  run env (handler s) s.

(** Clicks one after another, each after the previous one has finished. *)
Fixpoint clicks (handler : State -> Prog unit) (envs : list Env) (s : State) : State :=
  match envs with
  | [] => s
  | env :: rest => clicks handler rest (final (click env handler s))
  end.

Definition calls_where (P : forall R : Type, Call R -> bool) (log : list Event) : nat :=
  length (List.filter (fun e => match e with
                                | Called c => P _ c
                                | Wrote _ => false
                                end) log).

(** *** Handlers interleaved: the mounted component as a machine *)

(** Between two awaits a handler runs without interruption. *)
Fixpoint advance (p : Prog unit) (s : State) : Prog unit * State :=
  match p with
  | Do w k => advance k (apply w s)
  | _ => (p, s)
  end.

(** After unmount the setters do nothing; the handler still runs on. *)
Fixpoint skip_writes (p : Prog unit) : Prog unit :=
  match p with
  | Do _ k => skip_writes k
  | _ => p
  end.

Definition suspended (p : Prog unit) : bool :=
  match p with
  | Await _ _ => true
  | _ => false
  end.

Context {Origin : Type}.

(** A handler run that is waiting for a call to settle. *)
Definition Task : Type := Origin * Prog unit.

Record World : Type := mkWorld {
  ui : State;
  mounted : bool;
  pending : list Task
}.

Definition keep (o : Origin) (p : Prog unit) (tasks : list Task) : list Task :=
  if suspended p then tasks ++ [(o, p)] else tasks.

(** Start or resume the run [p] of origin [o] beside the tasks [others]. *)
Definition proceed (o : Origin) (p : Prog unit) (others : list Task) (w : World) : World :=
  if mounted w then
    let '(p', s') := advance p (ui w) in
    mkWorld s' true (keep o p' others)
  else
    mkWorld (ui w) false (keep o (skip_writes p) others).

(** [handler s o]: the handler a control runs when the view of state [s]
    shows it enabled. *)
Context (handler : State -> Origin -> option (Prog unit)).

Inductive step : World -> World -> Prop :=
| step_intent (w : World) (o : Origin) (p : Prog unit) :
    mounted w = true ->
    handler (ui w) o = Some p ->
    step w (proceed o p (pending w) w)
| step_settle (w : World) (n : nat) (o : Origin) (R : Type) (c : Call R)
    (k : Settled R -> Prog unit) (r : Settled R) :
    pending w !! n = Some (o, Await c k) ->
    step w (proceed o (k r) (delete n (pending w)) w)
| step_leave (w : World) :
    mounted w = true ->
    step w (mkWorld (ui w) false (pending w)).

Inductive reachable (w0 : World) : World -> Prop :=
| reachable_here : reachable w0 w0
| reachable_step (w w' : World) : reachable w0 w -> step w w' -> reachable w0 w'.

(** The same steps as functions, to run a scenario: a click on the
    control [o], and the settlement of the [n]-th waiting call by the
    collaborators [env].  A click on a control that is not offered, and the
    settlement of a call that is not waiting, change nothing. *)
Definition press (o : Origin) (w : World) : World :=
  match handler (ui w) o with
  | Some p => if mounted w then proceed o p (pending w) w else w
  | None => w
  end.

Definition settle (n : nat) (env : Env) (w : World) : World :=
  match pending w !! n with
  | Some (o, Await c k) => proceed o (k (env _ c)) (delete n (pending w)) w
  | _ => w
  end.

(** The waiting runs started by an origin of the class [G]. *)
Definition count_started (G : Origin -> bool) (l : list Task) : nat :=
  length (List.filter (fun t : Task => G (fst t)) l).

Definition started_by (G : Origin -> bool) (w : World) : nat :=
  count_started G (pending w).

(** The controls of the class [G] are disabled while [flag] is raised:
    a waiting run of the class waits with the flag raised, any other never
    sets it, and at most one run of the class waits. *)
Definition task_ok (G : Origin -> bool) (touches : Write -> option bool)
  (t : Task) : Prop :=
  if G (fst t) then guarded touches true (snd t) else untouched touches (snd t).

Definition exclusive (G : Origin -> bool) (flag : State -> bool)
  (touches : Write -> option bool) (w : World) : Prop :=
  Forall (task_ok G touches) (pending w)
  /\ (started_by G w = 0%nat
      \/ (started_by G w = 1%nat /\ flag (ui w) = true)).

(** The calls in flight. *)
Definition in_flight (P : forall R : Type, Call R -> bool) (w : World) : nat :=
  length (List.filter (fun t : Task => match snd t with
                                       | Await c _ => P _ c
                                       | _ => false
                                       end) (pending w)).

(** *** More shapes of handlers *)

(** [p] ends by returning on every path: what its awaits throw is caught. *)
Fixpoint never_throws {A : Type} (p : Prog A) : Prop :=
  match p with
  | Ret _ => True
  | Throw _ => False
  | Do _ k => never_throws k
  | Await _ k => forall r, never_throws (k r)
  end.

(** Started with the flag at [held], [p] ends with the flag lowered on
    every path. *)
Fixpoint lowered (touches : Write -> option bool) (held : bool) {A : Type}
  (p : Prog A) : Prop :=
  match p with
  | Ret _ | Throw _ => held = false
  | Do w k => lowered touches (default held (touches w)) k
  | Await _ k => forall r, lowered touches held (k r)
  end.

(** Every write of [p] is one of [W]. *)
Fixpoint writes_all (W : Write -> Prop) {A : Type} (p : Prog A) : Prop :=
  match p with
  | Ret _ | Throw _ => True
  | Do w k => W w /\ writes_all W k
  | Await _ k => forall r, writes_all W (k r)
  end.

(** While the component is mounted: every waiting run of the class [G]
    will lower the flag, and with no such run waiting the flag is down. *)
Definition mirrored (G : Origin -> bool) (flag : State -> bool)
  (touches : Write -> option bool) (w : World) : Prop :=
  mounted w = true ->
  Forall (fun t : Task => G (fst t) = true -> lowered touches true (snd t))
         (pending w)
  /\ (started_by G w = 0%nat -> flag (ui w) = false).

(** A flag that stands for "a call of kind [P] is being waited for" (a
    loading view).  [attended must seen p]: in the stretch of [p] up to its
    next await or its end, [seen] being the flag's last setting in this
    stretch so far, the run either stops at an await of kind [P], or has
    set the flag and set it last to [false], or -- allowed only when the
    stretch did not start at the settlement of a call of kind [P]
    ([must = false]) -- has not set it at all; and so on after every
    await. *)
Fixpoint attended (touches : Write -> option bool)
  (P : forall R : Type, Call R -> bool) (must : bool) (seen : option bool)
  {A : Type} (p : Prog A) : Prop :=
  match p with
  | Ret _ | Throw _ => seen = Some false \/ (seen = None /\ must = false)
  | Do w k =>
      attended touches P must
        (match touches w with Some b => Some b | None => seen end) k
  | Await c k =>
      (P _ c = true \/ seen = Some false \/ (seen = None /\ must = false))
      /\ forall r, attended touches P (P _ c) None (k r)
  end.

Definition awaits (P : forall R : Type, Call R -> bool) (p : Prog unit) : bool :=
  match p with
  | Await c _ => P _ c
  | _ => false
  end.

Definition count_awaiting (P : forall R : Type, Call R -> bool)
  (l : list Task) : nat :=
  length (List.filter (fun t : Task => awaits P (snd t)) l).

Definition waits_attended (touches : Write -> option bool)
  (P : forall R : Type, Call R -> bool) (t : Task) : Prop :=
  match snd t with
  | Await c k => forall r, attended touches P (P _ c) None (k r)
  | _ => True
  end.

(** While the component is mounted, the flag is raised only with a call
    of kind [P] in flight. *)
Definition attentive (flag : State -> bool) (touches : Write -> option bool)
  (P : forall R : Type, Call R -> bool) (w : World) : Prop :=
  mounted w = true ->
  Forall (waits_attended touches P) (pending w)
  /\ (flag (ui w) = true -> (1 <= in_flight P w)%nat).

(** [Promise.all([a, b])]: both calls are issued, and the pair is there
    when both have fulfilled; a rejection of either rejects the whole. *)
Definition both {R1 R2 : Type} (a : Call R1) (b : Call R2) : Prog (R1 * R2) :=
  Await a (fun ra =>
  Await b (fun rb =>
    match ra, rb with
    | Fulfilled x, Fulfilled y => Ret (x, y)
    | Rejected e, _ => Throw e
    | _, Rejected e => Throw e
    end)).

End Programs.

Arguments Prog Call Write A : clear implicits.
Arguments Ret {Call Write A} a.
Arguments Throw {Call Write A} e.
Arguments Do {Call Write A} w k.
Arguments Await {Call Write A R} c k.
Arguments Wrote {Call Write} w.
Arguments Called {Call Write R} c.
Arguments mkOutcome {Call Write State A} result final trace.
Arguments result {Call Write State A} o.
Arguments final {Call Write State A} o.
Arguments trace {Call Write State A} o.
Arguments Event Call Write : clear implicits.
Arguments Env Call : clear implicits.
Arguments Outcome Call Write State A : clear implicits.
Arguments Task Call Write Origin : clear implicits.
Arguments World Call Write State Origin : clear implicits.

Declare Scope prog_scope.
Delimit Scope prog_scope with prog.
Notation "x <- p ;; q" := (bind p (fun x => q))
  (at level 100, p at next level, right associativity) : prog_scope.
Notation "p ;; q" := (bind p (fun _ => q))
  (at level 100, right associativity) : prog_scope.

End Async.

(* ===================================================================== *)
(** ** The collaborators as the pages see them                            *)
(* ===================================================================== *)

Module Api.

Record TranslationOption : Type := mkOption {
  opt_word : string;
  translation : string;
  part_of_speech : option string;
  context : option string
}.

Record TranslateResult : Type := mkTranslateResult {
  translations : list TranslationOption
}.

(** [fields] keeps the insertion order, which is the display order. *)
Record CardData : Type := mkCardData {
  note_type_id : string;
  fields : list (string * string)
}.

Record User : Type := mkUser {
  user_id : string;
  username : string;
  native_language : option string
}.

Record DuplicateResult : Type := mkDuplicateResult {
  is_duplicate : bool;
  duplicate_of_id : option string;
  explanation : option string
}.

(** The answer of [createCard]; [card_id] is its [id]. *)
Record CreatedCard : Type := mkCreated {
  card_id : string
}.

(** A call of the [api] table with its argument, indexed by what it
    resolves to. *)
Inductive Call : Type -> Type :=
| Translate (word source_language target_language deck_id : string)
    : Call TranslateResult
| FormatCard (deck_id word translation : string)
    (part_of_speech context native_language : option string)
    : Call CardData
| CreateCard (deck_id note_type_id : string) (fields : list (string * string))
    (source_word : string)
    : Call CreatedCard
| AcceptCard (cardId : string) : Call unit
| GetMe : Call User
| CheckDuplicate (word deck_id source_language : string)
    : Call DuplicateResult.

Definition is_createCard (R : Type) (c : Call R) : bool :=
  match c with
  | CreateCard _ _ _ _ => true
  | _ => false
  end.

Definition is_acceptCard (R : Type) (c : Call R) : bool :=
  match c with
  | AcceptCard _ => true
  | _ => false
  end.

Definition is_formatCard (R : Type) (c : Call R) : bool :=
  match c with
  | FormatCard _ _ _ _ _ _ => true
  | _ => false
  end.

Definition is_checkDuplicate (R : Type) (c : Call R) : bool :=
  match c with
  | CheckDuplicate _ _ _ => true
  | _ => false
  end.

Definition any_call (R : Type) (c : Call R) : bool := true.

(** The calls behind the two loading views. *)
Definition is_loading_call (R : Type) (c : Call R) : bool :=
  match c with
  | Translate _ _ _ _ | FormatCard _ _ _ _ _ _ => true
  | _ => false
  end.

(** The two calls of Accept. *)
Definition is_persist (R : Type) (c : Call R) : bool :=
  is_createCard R c || is_acceptCard R c.

(** Collaborators that answer each kind of call the same way, whatever
    its argument. *)
Record Answers : Type := mkAnswers {
  on_translate : Settled TranslateResult;
  on_formatCard : Settled CardData;
  on_createCard : Settled CreatedCard;
  on_acceptCard : Settled unit;
  on_getMe : Settled User;
  on_checkDuplicate : Settled DuplicateResult
}.

Definition answering (a : Answers) : Async.Env Call :=
  fun R c =>
    match c in Call R return Settled R with
    | Translate _ _ _ _ => on_translate a
    | FormatCard _ _ _ _ _ _ => on_formatCard a
    | CreateCard _ _ _ _ => on_createCard a
    | AcceptCard _ => on_acceptCard a
    | GetMe => on_getMe a
    | CheckDuplicate _ _ _ => on_checkDuplicate a
    end.

End Api.

(* ===================================================================== *)
(** ** [pages/TranslatePage.tsx]                                          *)
(* ===================================================================== *)

Module TranslatePage.

Import Async Api.

Record Props : Type := mkProps {
  word : string;
  deckId : string
}.

Inductive Phase : Type :=
| translating
| choosing
| formatting
| preview
| saved.

Record State : Type := mkState {
  phase : Phase;
  error : string;
  translations_ : list TranslationOption;     (* the [translations] state *)
  chosenTranslation : option TranslationOption;
  cardData : option CardData;
  saving : bool;
  addingNative : bool
}.

(** The [useState] initial values. *)
Definition initial : State :=
  mkState translating "" [] None None false false.

Inductive Write : Type :=
| setPhase (p : Phase)
| setError (e : string)
| setTranslations (l : list TranslationOption)
| setChosenTranslation (o : option TranslationOption)
| setCardData (d : option CardData)
| setSaving (b : bool)
| setAddingNative (b : bool).

Definition apply (w : Write) (s : State) : State :=
  match w with
  | setPhase p =>
      mkState p (error s) (translations_ s) (chosenTranslation s) (cardData s)
              (saving s) (addingNative s)
  | setError e =>
      mkState (phase s) e (translations_ s) (chosenTranslation s) (cardData s)
              (saving s) (addingNative s)
  | setTranslations l =>
      mkState (phase s) (error s) l (chosenTranslation s) (cardData s)
              (saving s) (addingNative s)
  | setChosenTranslation o =>
      mkState (phase s) (error s) (translations_ s) o (cardData s)
              (saving s) (addingNative s)
  | setCardData d =>
      mkState (phase s) (error s) (translations_ s) (chosenTranslation s) d
              (saving s) (addingNative s)
  | setSaving b =>
      mkState (phase s) (error s) (translations_ s) (chosenTranslation s)
              (cardData s) b (addingNative s)
  | setAddingNative b =>
      mkState (phase s) (error s) (translations_ s) (chosenTranslation s)
              (cardData s) (saving s) b
  end.

Definition Handler : Type := Prog Call Write unit.

Local Open Scope prog_scope.

Section Component.

Variable props : Props.

Definition formatWithTranslation (opt : TranslationOption)
  (nativeLanguage : option string) : Handler :=
  set (setChosenTranslation (Some opt)) ;;
  set (setPhase formatting) ;;
  set (setError "") ;;
  try_catch
    (result <- call (FormatCard (deckId props) (opt_word opt)
                       (translation opt) (part_of_speech opt)
                       (context opt) nativeLanguage) ;;
     set (setCardData (Some result)) ;;
     set (setPhase preview))
    (fun err =>
       set (setError (message_or err "Card formatting failed")) ;;
       set (setPhase choosing)).

Definition loadTranslations : Handler :=
  set (setPhase translating) ;;
  set (setError "") ;;
  try_catch
    (result <- call (Translate (word props) "" "" (deckId props)) ;;
     set (setTranslations (translations result)) ;;
     match translations result with
     | [only] =>
         (* result.translations.length === 1: auto-advance *)
         formatWithTranslation only None
     | _ => set (setPhase choosing)
     end)
    (fun err =>
       set (setError (message_or err "Translation failed")) ;;
       set (setPhase choosing)).

(** The [createCard] call for the draft [data]. *)
Definition create_for (data : CardData) : Call CreatedCard :=
  CreateCard (deckId props) (note_type_id data) (fields data) (word props).

Definition handleAccept (s : State) : Handler :=
  match cardData s with
  | None => Ret tt
  | Some data =>
      set (setSaving true) ;;
      finally
        (try_catch
           (result <- call (create_for data) ;;
            call (AcceptCard (card_id result)) ;;
            set (setPhase saved))
           (fun err =>
              set (setError (message_or err "Failed to save card"))))
        (set (setSaving false))
  end.

Definition handleAddNativeTranslation (s : State) : Handler :=
  match chosenTranslation s with
  | None => Ret tt
  | Some chosen =>
      set (setAddingNative true) ;;
      finally
        (try_catch
           (user <- call GetMe ;;
            if negb (truthy_opt (native_language user)) then
              set (setError "Please set your native language in Settings first.")
            else
              formatWithTranslation chosen (native_language user))
           (fun err =>
              set (setError (message_or err "Failed to add native translation"))))
        (set (setAddingNative false))
  end.

(** [useEffect(() => { if (!word) return; loadTranslations(); }, [word])] *)
Definition mount_effect : Handler :=
  if negb (truthy_string (word props)) then Ret tt else loadTranslations.

(** *** What the render offers *)

(** The controls that start a handler. *)
Inductive Control : Type :=
| OptionButton (i : nat)       (* a candidate in the choosing view *)
| AcceptButton
| AddNativeButton.

(** Where a run comes from: the mount effect or a control. *)
Definition Origin : Type := option Control.

(** The handler behind a control, when the render of [s] shows the control
    and does not disable it. *)
Definition on_click (s : State) (c : Control) : option Handler :=
  if negb (truthy_string (word props)) then None
  else
    match phase s, c with
    | choosing, OptionButton i =>
        (fun opt => formatWithTranslation opt None) <$> translations_ s !! i
    | preview, AcceptButton =>
        if bool_decide (is_Some (cardData s)) && negb (saving s)
        then Some (handleAccept s) else None
    | preview, AddNativeButton =>
        if bool_decide (is_Some (cardData s)) && negb (addingNative s)
        then Some (handleAddNativeTranslation s) else None
    | _, _ => None
    end.

Definition handler (s : State) (o : Origin) : option Handler :=
  match o with
  | Some c => on_click s c
  | None => None
  end.

(** [disabled={saving}] and [disabled={addingNative}]: the class of runs
    each flag shuts out, and the writes that set the flag. *)
Definition is_accept (o : Origin) : bool :=
  match o with
  | Some AcceptButton => true
  | _ => false
  end.

Definition is_addNative (o : Origin) : bool :=
  match o with
  | Some AddNativeButton => true
  | _ => false
  end.

Definition touches_saving (w : Write) : option bool :=
  match w with
  | setSaving b => Some b
  | _ => None
  end.

Definition touches_addingNative (w : Write) : option bool :=
  match w with
  | setAddingNative b => Some b
  | _ => None
  end.

(** The phases whose view is a loading line without any control. *)
Definition loading_phase (p : Phase) : bool :=
  match p with
  | translating | formatting => true
  | _ => false
  end.

Definition is_loading (s : State) : bool := loading_phase (phase s).

Definition touches_loading (w : Write) : option bool :=
  match w with
  | setPhase p => Some (loading_phase p)
  | _ => None
  end.

(** The writes that leave a draft and a chosen candidate in place: all
    but [setCardData(null)] and [setChosenTranslation(null)]. *)
Definition keeps_selection (w : Write) : Prop :=
  match w with
  | setCardData None | setChosenTranslation None => False
  | _ => True
  end.

(** The [navigate] targets the render offers, in order. *)
Definition nav_buttons (s : State) : list string :=
  if negb (truthy_string (word props)) then ["/words"]
  else
    match phase s with
    | translating | formatting => []
    | choosing => ["/words"]
    | saved => ["/words"; "/"]
    | preview => if bool_decide (is_Some (cardData s)) then ["/words"] else []
    end.

(** The [error] banner, in the views that have one. *)
Definition error_banner (s : State) : option string :=
  if negb (truthy_string (word props)) then None
  else
    match phase s with
    | choosing | preview => if truthy_string (error s) then Some (error s) else None
    | _ => None
    end.

(** The collaborators [env] let one "Add Native Translation" on the
    candidate [chosen] reach formatting and format the draft [draft]. *)
Definition formats_native (chosen : TranslationOption) (env : Env Call)
  (draft : CardData) : Prop :=
  exists (user : User) (nl : string),
    env _ GetMe = Fulfilled user
    /\ native_language user = Some nl
    /\ nl <> ""
    /\ env _ (FormatCard (deckId props) (opt_word chosen) (translation chosen)
                (part_of_speech chosen) (context chosen) (Some nl))
       = Fulfilled draft.

(** What [loadTranslations] does before the answer is looked at. *)
Definition load_start : list (Event Call Write) :=
  [Wrote (setPhase translating); Wrote (setError "");
   Called (Translate (word props) "" "" (deckId props))].

(** The page right after mount: first render, then the effect. *)
Definition mounted_page : World Call Write State Origin :=
  proceed apply None mount_effect [] (mkWorld initial true []).

End Component.

Abbreviation run := (Async.run apply).
Abbreviation click := (Async.click apply).
Abbreviation clicks := (Async.clicks apply).

(** The phases a run moves through, in order. *)
Definition phases (log : list (Event Call Write)) : list Phase :=
  omap (fun e => match e with
                 | Wrote (setPhase p) => Some p
                 | _ => None
                 end) log.

(** The calls a run makes, counted by kind. *)
Definition count (P : forall R : Type, Call R -> bool) (log : list (Event Call Write)) : nat :=
  calls_where P log.

End TranslatePage.

(* ===================================================================== *)
(** ** [pages/WordSelectPage.tsx]                                         *)
(* ===================================================================== *)

Module WordSelectPage.

Import Async Api.

Record Props : Type := mkProps {
  words : list string;
  deckId : string
}.

Record Duplicate : Type := mkDuplicate {
  dup_word : string;
  dup_explanation : string;
  dup_duplicate_of_id : option string
}.

(** The page's own state, and what its callbacks reach outside it: the
    word handed to [onWordSelected] (the shell's [selectedWord]) and the
    router location. *)
Record State : Type := mkState {
  checking : option string;
  duplicate : option Duplicate;
  selectedWord : string;
  location : string
}.

Definition initial (selected : string) : State :=
  mkState None None selected "/words".

Inductive Write : Type :=
| setChecking (c : option string)
| setDuplicate (d : option Duplicate)
| onWordSelected (w : string)
| navigate (path : string).

Definition apply (w : Write) (s : State) : State :=
  match w with
  | setChecking c => mkState c (duplicate s) (selectedWord s) (location s)
  | setDuplicate d => mkState (checking s) d (selectedWord s) (location s)
  | onWordSelected x => mkState (checking s) (duplicate s) x (location s)
  | navigate path => mkState (checking s) (duplicate s) (selectedWord s) path
  end.

Definition Handler : Type := Prog Call Write unit.

Local Open Scope prog_scope.

Section Component.

Variable props : Props.

Definition handleWordClick (word : string) : Handler :=
  if negb (truthy_string (deckId props)) then
    set (onWordSelected word) ;;
    set (navigate "/translate")
  else
    (* Check for duplicates first *)
    set (setChecking (Some word)) ;;
    set (setDuplicate None) ;;
    finally
      (try_catch
         (result <- call (CheckDuplicate word (deckId props) "") ;;
          if is_duplicate result then
            set (setDuplicate (Some (mkDuplicate word
                   (or_else (explanation result)
                      "This word may already exist in your deck.")
                   (duplicate_of_id result))))
          else
            set (onWordSelected word) ;;
            set (navigate "/translate"))
         (fun _ =>
            (* If duplicate check fails, proceed anyway *)
            set (onWordSelected word) ;;
            set (navigate "/translate")))
      (set (setChecking None)).

Definition proceedAnyway (s : State) : Handler :=
  match duplicate s with
  | Some d =>
      set (onWordSelected (dup_word d)) ;;
      set (navigate "/translate")
  | None => Ret tt
  end.

Inductive Control : Type :=
| WordButton (i : nat)
| ProceedAnywayButton
| ChooseDifferentButton.

Definition on_click (s : State) (c : Control) : option Handler :=
  if negb (String.eqb (location s) "/words") then None
  else
    match words props, c with
    | [], _ => None
    | _, WordButton i =>
        if bool_decide (is_Some (checking s)) then None   (* disabled *)
        else handleWordClick <$> words props !! i
    | _, ProceedAnywayButton =>
        if bool_decide (is_Some (duplicate s)) then Some (proceedAnyway s) else None
    | _, ChooseDifferentButton =>
        if bool_decide (is_Some (duplicate s)) then Some (set (setDuplicate None)) else None
    end.

Definition mounted_page (selected : string) : World Call Write State Control :=
  mkWorld (initial selected) true [].

(** [disabled={checking !== null}] on every word button. *)
Definition is_word_button (c : Control) : bool :=
  match c with
  | WordButton _ => true
  | _ => false
  end.

Definition is_checking (s : State) : bool :=
  bool_decide (is_Some (checking s)).

Definition touches_checking (w : Write) : option bool :=
  match w with
  | setChecking c => Some (bool_decide (is_Some c))
  | _ => None
  end.

End Component.

Abbreviation run := (Async.run apply).
Abbreviation click := (Async.click apply).

End WordSelectPage.

(* ===================================================================== *)
(** ** [pages/LoginPage.tsx]                                              *)
(* ===================================================================== *)

Module LoginPage.

Import Async.

Record LoginResult : Type := mkLoginResult {
  access_token : string
}.

Inductive Call : Type -> Type :=
| Login (username password : string) : Call LoginResult.

Section Component.

Context {runtime : Gateway.Runtime}.

(** The fields of the form, and what the handler reaches outside the page:
    the client module's session ([setToken]) and the router location. *)
Record State : Type := mkState {
  username : string;
  password : string;
  error : string;
  loading : bool;
  session : Gateway.Browser;
  location : string
}.

Definition initial (session : Gateway.Browser) : State :=
  mkState "" "" "" false session "/login".

Inductive Write : Type :=
| setUsername (u : string)
| setPassword (p : string)
| setError (e : string)
| setLoading (b : bool)
| setToken (token : string)
| navigate (path : string).

Definition apply (w : Write) (s : State) : State :=
  match w with
  | setUsername u =>
      mkState u (password s) (error s) (loading s) (session s) (location s)
  | setPassword p =>
      mkState (username s) p (error s) (loading s) (session s) (location s)
  | setError e =>
      mkState (username s) (password s) e (loading s) (session s) (location s)
  | setLoading b =>
      mkState (username s) (password s) (error s) b (session s) (location s)
  | setToken token =>
      mkState (username s) (password s) (error s) (loading s)
              (Gateway.setToken (Some token) (session s)) (location s)
  | navigate path =>
      mkState (username s) (password s) (error s) (loading s) (session s) path
  end.

Definition Handler : Type := Prog Call Write unit.

Local Open Scope prog_scope.

Definition handleSubmit (s : State) : Handler :=
  set (setError "") ;;
  set (setLoading true) ;;
  finally
    (try_catch
       (answer <- call (Login (username s) (password s)) ;;
        set (setToken (access_token answer)) ;;
        set (navigate "/"))
       (fun err => set (setError (message_or err "Login failed"))))
    (set (setLoading false)).

End Component.

Abbreviation click := (Async.click apply).

End LoginPage.

(* ===================================================================== *)
(** ** [pages/CameraPage.tsx]                                             *)
(* ===================================================================== *)

Module CameraPage.

Import Async.

Record OcrResult : Type := mkOcrResult {
  words : list string;
  raw_text : string
}.

Inductive Call : Type -> Type :=
| Ocr (file : string) : Call OcrResult.

(** The page's state, the shell's [ocrWords] that [onWordsExtracted] sets,
    and the router location. *)
Record State : Type := mkState {
  loading : bool;
  error : string;
  ocrWords : list string;
  location : string
}.

Inductive Write : Type :=
| setError (e : string)
| setLoading (b : bool)
| onWordsExtracted (l : list string)
| navigate (path : string).

Definition apply (w : Write) (s : State) : State :=
  match w with
  | setError e => mkState (loading s) e (ocrWords s) (location s)
  | setLoading b => mkState b (error s) (ocrWords s) (location s)
  | onWordsExtracted l => mkState (loading s) (error s) l (location s)
  | navigate path => mkState (loading s) (error s) (ocrWords s) path
  end.

Definition Handler : Type := Prog Call Write unit.

Local Open Scope prog_scope.

(** [file] is [e.target.files?.[0]]: absent when the picker was closed
    without a choice. *)
Definition handleFile (file : option string) : Handler :=
  match file with
  | None => Ret tt
  | Some f =>
      set (setError "") ;;
      set (setLoading true) ;;
      finally
        (try_catch
           (answer <- call (Ocr f) ;;
            set (onWordsExtracted (words answer)) ;;
            set (navigate "/words"))
           (fun err => set (setError (message_or err "OCR failed"))))
        (set (setLoading false))
  end.

Abbreviation run := (Async.run apply).

End CameraPage.

(* ===================================================================== *)
(** ** [pages/CardsPage.tsx]                                              *)
(* ===================================================================== *)

Module CardsPage.

Import Async.

Record CardItem : Type := mkCardItem {
  card_id : string;
  fields : list (string * string);     (* insertion order *)
  status : string;
  source_word : option string;
  created_at : string
}.

(** [api.listCards(params)], [params] being the [Record<string, string>]
    the page builds. *)
Inductive Call : Type -> Type :=
| ListCards (params : list (string * string)) : Call (list CardItem).

Record State : Type := mkState {
  cards : list CardItem;
  loading : bool
}.

Definition initial : State := mkState [] true.

Inductive Write : Type :=
| setCards (l : list CardItem)
| setLoading (b : bool).

Definition apply (w : Write) (s : State) : State :=
  match w with
  | setCards l => mkState l (loading s)
  | setLoading b => mkState (cards s) b
  end.

Definition Handler : Type := Prog Call Write unit.

Local Open Scope prog_scope.

Definition loadCards (deckId : string) : Handler :=
  set (setLoading true) ;;
  finally
    (try_catch
       (answer <- call (ListCards (if truthy_string deckId
                                   then [("deck_id", deckId)] else [])) ;;
        set (setCards answer))
       (fun _ => Ret tt))
    (set (setLoading false)).







Abbreviation run := (Async.run apply).

End CardsPage.

(* ===================================================================== *)
(** ** [pages/ConfigPage.tsx]                                             *)
(* ===================================================================== *)

Module ConfigPage.

Import Async.

Record Deck : Type := mkDeck {
  deck_id : string;
  name : string;
  source_language : option string;
  target_language : option string
}.

Inductive Call : Type -> Type :=
| ListDecks : Call (list Deck)
| GetMe : Call Api.User
| UpdateMe (native_language : string) : Call unit
| UpdateDeck (deckId : string) (source_language target_language : option string)
    : Call unit.

(** The page's state and, from the shell, the [selectedDeckId] prop of the
    current render with the store [onDeckChange] writes it to. *)
Record State : Type := mkState {
  decks : list Deck;
  nativeLanguage : string;
  sourceLang : string;
  targetLang : string;
  saving : bool;
  message : string;
  selectedDeckId : string;
  storage : gmap string string
}.

Definition initial (selected : string) (store : gmap string string) : State :=
  mkState [] "" "" "" false "" selected store.

Inductive Write : Type :=
| setDecks (l : list Deck)
| setNativeLanguage (x : string)
| setSourceLang (x : string)
| setTargetLang (x : string)
| setSaving (b : bool)
| setMessage (m : string)
| onDeckChange (id : string).

Definition apply (w : Write) (s : State) : State :=
  match w with
  | setDecks l =>
      mkState l (nativeLanguage s) (sourceLang s) (targetLang s) (saving s)
              (message s) (selectedDeckId s) (storage s)
  | setNativeLanguage x =>
      mkState (decks s) x (sourceLang s) (targetLang s) (saving s)
              (message s) (selectedDeckId s) (storage s)
  | setSourceLang x =>
      mkState (decks s) (nativeLanguage s) x (targetLang s) (saving s)
              (message s) (selectedDeckId s) (storage s)
  | setTargetLang x =>
      mkState (decks s) (nativeLanguage s) (sourceLang s) x (saving s)
              (message s) (selectedDeckId s) (storage s)
  | setSaving b =>
      mkState (decks s) (nativeLanguage s) (sourceLang s) (targetLang s) b
              (message s) (selectedDeckId s) (storage s)
  | setMessage m =>
      mkState (decks s) (nativeLanguage s) (sourceLang s) (targetLang s)
              (saving s) m (selectedDeckId s) (storage s)
  | onDeckChange id =>
      mkState (decks s) (nativeLanguage s) (sourceLang s) (targetLang s)
              (saving s) (message s)
              (fst (App.setSelectedDeckId id (storage s)))
              (snd (App.setSelectedDeckId id (storage s)))
  end.

Definition Handler : Type := Prog Call Write unit.

Local Open Scope prog_scope.

(** [x || undefined] *)
Definition or_undefined (x : string) : option string :=
  if truthy_string x then Some x else None.

(** The two calls go out together ([Promise.all]); when both reject, the
    rejection the [catch] gets is that of the first listed, and the page
    throws it away. *)
Definition loadData (s : State) : Handler :=
  try_catch
    (answers <- both ListDecks GetMe ;;
     set (setDecks (fst answers)) ;;
     set (setNativeLanguage (or_else (Api.native_language (snd answers)) "")) ;;
     if negb (truthy_string (selectedDeckId s))
     then match fst answers with
          | first :: _ => set (onDeckChange (deck_id first))
          | [] => Ret tt
          end
     else Ret tt)
    (fun _ => Ret tt).

Definition handleSave (s : State) : Handler :=
  set (setSaving true) ;;
  set (setMessage "") ;;
  finally
    (try_catch
       (call (UpdateMe (nativeLanguage s)) ;;
        (if truthy_string (selectedDeckId s)
         then call (UpdateDeck (selectedDeckId s) (or_undefined (sourceLang s))
                      (or_undefined (targetLang s)))
         else Ret tt) ;;
        set (setMessage "Settings saved."))
       (fun err => set (setMessage (message_or err "Failed to save"))))
    (set (setSaving false)).

(** The effect on [[selectedDeckId, decks]]: the language fields follow
    the selected deck when the list has it. *)
Definition sync_languages (s : State) : Handler :=
  match List.find (fun d => String.eqb (deck_id d) (selectedDeckId s)) (decks s) with
  | Some deck =>
      set (setSourceLang (or_else (source_language deck) "")) ;;
      set (setTargetLang (or_else (target_language deck) ""))
  | None => Ret tt
  end.

(** [hay.includes(needle)] *)
Fixpoint includes (needle hay : string) : bool :=
  String.prefix needle hay
  || match hay with
     | EmptyString => false
     | String _ rest => includes needle rest
     end.

Inductive Colour : Type :=
| red       (* #d32f2f *)
| green.    (* #2e7d32 *)

(** The colour of the message line, when there is a message. *)
Definition message_colour (s : State) : option Colour :=
  if truthy_string (message s)
  then Some (if includes "fail" (message s) then red else green)
  else None.

Abbreviation run := (Async.run apply).
Abbreviation click := (Async.click apply).

End ConfigPage.

(* ===================================================================== *)
(** ** Concrete runtimes, servers and sessions used in the examples       *)
(* ===================================================================== *)

Module Samples.

Import Gateway.

(** A runtime whose numbers are integers: zero is falsy, and the text of a
    number is not looked at. *)
#[export] Instance sample_runtime : Runtime := {|
  number := Z;
  number_truthy := fun n => negb (n =? 0);
  number_to_string := fun _ => "0";
  null_property_error :=
    ErrorInstance "Cannot read properties of null (reading 'detail')"
|}.

(** A browser with nothing stored, on the cards page. *)
Definition signed_out : Browser :=
  mkBrowser None ∅ "/cards" [].

Definition signed_in : Browser :=
  mkBrowser (Some "jwt") {["token" := "jwt"]} "/" [].

(** A server that answers every request [200 OK] with the given body. *)
Definition answers (body : Value) : Network :=
  fun _ => Fulfilled (mkResponse 200 "OK" (Fulfilled body)).

(** An HTTP/2 server failing with a body that is not JSON: status 500, no
    status text. *)
Definition fails_http2 : Network :=
  fun _ => Fulfilled (mkResponse 500 ""
             (Rejected (ErrorInstance "Unexpected token '<'"))).

Definition hund_request : TranslateData :=
  mkTranslateData "Hund" "" "" (Some "German::Vocabulary") None.

(** A translate answer without candidates. *)
Definition no_candidates : Value :=
  VObj [("translations", VArr [])].

(** The session of scenario A: the word "Hund" for the deck
    "German::Vocabulary". *)
Definition hund : TranslatePage.Props :=
  TranslatePage.mkProps "Hund" "German::Vocabulary".

Definition dog : Api.TranslationOption :=
  Api.mkOption "Hund" "dog" None None.

Definition hound : Api.TranslationOption :=
  Api.mkOption "Hund" "hound" (Some "noun") None.

Definition hund_card : Api.CardData :=
  Api.mkCardData "basic" [("Front", "Hund"); ("Back", "dog")].

Definition hund_card_native : Api.CardData :=
  Api.mkCardData "basic" [("Front", "Hund"); ("Back", "dog / Hund (de)")].

Definition learner : Api.User :=
  Api.mkUser "u1" "testuser" (Some "Polish").

(** Every collaborator succeeds; translate gives the one candidate. *)
Definition all_fine : Api.Answers :=
  Api.mkAnswers
    (Fulfilled (Api.mkTranslateResult [dog]))
    (Fulfilled hund_card)
    (Fulfilled (Api.mkCreated "card-1"))
    (Fulfilled tt)
    (Fulfilled learner)
    (Fulfilled (Api.mkDuplicateResult false None None)).

(** The card is created and the accept call then fails. *)
Definition accept_fails : Api.Answers :=
  Api.mkAnswers
    (Fulfilled (Api.mkTranslateResult [dog]))
    (Fulfilled hund_card)
    (Fulfilled (Api.mkCreated "card-1"))
    (Rejected (ErrorInstance "Service Unavailable"))
    (Fulfilled learner)
    (Fulfilled (Api.mkDuplicateResult false None None)).

(** The retry: the server creates a card again, under a new id. *)
Definition retry_fine : Api.Answers :=
  Api.mkAnswers
    (Fulfilled (Api.mkTranslateResult [dog]))
    (Fulfilled hund_card_native)
    (Fulfilled (Api.mkCreated "card-2"))
    (Fulfilled tt)
    (Fulfilled learner)
    (Fulfilled (Api.mkDuplicateResult false None None)).

Definition two_candidates : Api.Answers :=
  Api.mkAnswers
    (Fulfilled (Api.mkTranslateResult [dog; hound]))
    (Fulfilled hund_card)
    (Fulfilled (Api.mkCreated "card-1"))
    (Fulfilled tt)
    (Fulfilled learner)
    (Fulfilled (Api.mkDuplicateResult false None None)).

Definition zero_candidates : Api.Answers :=
  Api.mkAnswers
    (Fulfilled (Api.mkTranslateResult []))
    (Fulfilled hund_card)
    (Fulfilled (Api.mkCreated "card-1"))
    (Fulfilled tt)
    (Fulfilled learner)
    (Fulfilled (Api.mkDuplicateResult false None None)).

(** The duplicate check is down. *)
Definition duplicate_check_down : Api.Answers :=
  Api.mkAnswers
    (Fulfilled (Api.mkTranslateResult [dog]))
    (Fulfilled hund_card)
    (Fulfilled (Api.mkCreated "card-1"))
    (Fulfilled tt)
    (Fulfilled learner)
    (Rejected (ErrorInstance "Service Unavailable")).

(** The word list of scenario A. *)
Definition photo_words : WordSelectPage.Props :=
  WordSelectPage.mkProps ["Fuchs"; "Hund"; "Garten"] "German::Vocabulary".

(** The word page after a tap on "Hund", the check still out. *)
Definition hund_tapped
  : Async.World Api.Call WordSelectPage.Write WordSelectPage.State
      WordSelectPage.Control :=
  Async.press WordSelectPage.apply (WordSelectPage.on_click photo_words)
    (WordSelectPage.WordButton 1) (WordSelectPage.mounted_page "").

(** The translate page for "Hund": translate and format settle, the
    preview shows; then a click on "Add Native Translation" and, before its
    profile call settles, a click on "Accept Card". *)
Definition hund_busy
  : Async.World Api.Call TranslatePage.Write TranslatePage.State
      TranslatePage.Origin :=
  Async.press TranslatePage.apply (TranslatePage.handler hund)
    (Some TranslatePage.AcceptButton)
    (Async.press TranslatePage.apply (TranslatePage.handler hund)
       (Some TranslatePage.AddNativeButton)
       (Async.settle TranslatePage.apply 0 (Api.answering all_fine)
          (Async.settle TranslatePage.apply 0 (Api.answering all_fine)
             (TranslatePage.mounted_page hund)))).

(** The preview of scenario A, before any click. *)
Definition hund_preview : TranslatePage.State :=
  TranslatePage.mkState TranslatePage.preview "" [dog] (Some dog)
    (Some hund_card) false false.

End Samples.

(** Further sessions: the login, camera, cards and settings pages, the
    word page without a deck and with a duplicate, servers that refuse. *)
Module Sessions.

Import Gateway Samples.

(** The server refuses the credential. *)
Definition unauthorized : Network :=
  fun _ => Fulfilled (mkResponse 401 "Unauthorized"
             (Fulfilled (VObj [("detail", VStr "Could not validate credentials")]))).

(** The server answers 204 with nothing to parse. *)
Definition no_content : Network :=
  fun _ => Fulfilled (mkResponse 204 "No Content"
             (Rejected (ErrorInstance "Unexpected end of JSON input"))).

Definition refused : Response :=
  mkResponse 401 "Unauthorized"
    (Fulfilled (VObj [("detail", VStr "Could not validate credentials")])).

Definition login_form : LoginPage.State :=
  LoginPage.mkState "testuser" "testpass123" "" false signed_out "/login".

Definition login_ok : Async.Env LoginPage.Call :=
  fun R c =>
    match c in LoginPage.Call R return Settled R with
    | LoginPage.Login _ _ => Fulfilled (LoginPage.mkLoginResult "jwt")
    end.

Definition login_wrong : Async.Env LoginPage.Call :=
  fun R c =>
    match c in LoginPage.Call R return Settled R with
    | LoginPage.Login _ _ =>
        Rejected (ErrorInstance "Incorrect username or password")
    end.

(** The camera page with the words of an earlier photo in the shell. *)
Definition camera_idle : CameraPage.State :=
  CameraPage.mkState false "" ["Katze"] "/".

Definition ocr_reads : Async.Env CameraPage.Call :=
  fun R c =>
    match c in CameraPage.Call R return Settled R with
    | CameraPage.Ocr _ =>
        Fulfilled (CameraPage.mkOcrResult ["Fuchs"; "Hund"; "Garten"]
                     "Der Fuchs, der Hund, der Garten")
    end.

Definition ocr_down : Async.Env CameraPage.Call :=
  fun R c =>
    match c in CameraPage.Call R return Settled R with
    | CameraPage.Ocr _ => Rejected (ErrorInstance "OCR engine unavailable")
    end.


Definition german : ConfigPage.Deck :=
  ConfigPage.mkDeck "German::Vocabulary" "German" (Some "German") None.

Definition french : ConfigPage.Deck :=
  ConfigPage.mkDeck "French" "French" (Some "French") (Some "English").

Definition settings_opened : ConfigPage.State :=
  ConfigPage.initial "" ∅.

Definition settings_fine : Async.Env ConfigPage.Call :=
  fun R c =>
    match c in ConfigPage.Call R return Settled R with
    | ConfigPage.ListDecks => Fulfilled [german; french]
    | ConfigPage.GetMe => Fulfilled learner
    | ConfigPage.UpdateMe _ => Fulfilled tt
    | ConfigPage.UpdateDeck _ _ _ => Fulfilled tt
    end.

Definition settings_down : Async.Env ConfigPage.Call :=
  fun R c =>
    match c in ConfigPage.Call R return Settled R with
    | ConfigPage.ListDecks => Fulfilled [german; french]
    | ConfigPage.GetMe => Fulfilled learner
    | ConfigPage.UpdateMe _ => Rejected OtherValue
    | ConfigPage.UpdateDeck _ _ _ => Fulfilled tt
    end.

(** The translate page mounted without a word. *)
Definition no_word : TranslatePage.Props :=
  TranslatePage.mkProps "" "German::Vocabulary".

(** The translate page of "Hund" with its preview shown, nothing pending. *)
Definition hund_shown
  : Async.World Api.Call TranslatePage.Write TranslatePage.State
      TranslatePage.Origin :=
  Async.settle TranslatePage.apply 0 (Api.answering all_fine)
    (Async.settle TranslatePage.apply 0 (Api.answering all_fine)
       (TranslatePage.mounted_page hund)).

(** Two candidates to choose from. *)
Definition hund_choosing : TranslatePage.State :=
  TranslatePage.mkState TranslatePage.choosing "" [dog; hound] None None
    false false.

(** No profile language. *)
Definition no_native_language : Api.Answers :=
  Api.mkAnswers
    (Fulfilled (Api.mkTranslateResult [dog]))
    (Fulfilled hund_card)
    (Fulfilled (Api.mkCreated "card-1"))
    (Fulfilled tt)
    (Fulfilled (Api.mkUser "u1" "testuser" None))
    (Fulfilled (Api.mkDuplicateResult false None None)).

(** Every call fails. *)
Definition all_down : Api.Answers :=
  Api.mkAnswers
    (Rejected (ErrorInstance "Service Unavailable"))
    (Rejected (ErrorInstance "Service Unavailable"))
    (Rejected (ErrorInstance "Service Unavailable"))
    (Rejected (ErrorInstance "Service Unavailable"))
    (Rejected (ErrorInstance "Service Unavailable"))
    (Rejected (ErrorInstance "Service Unavailable")).

(** The duplicate check of scenario B. *)
Definition duplicate_found : Api.Answers :=
  Api.mkAnswers
    (Fulfilled (Api.mkTranslateResult [dog]))
    (Fulfilled hund_card)
    (Fulfilled (Api.mkCreated "card-1"))
    (Fulfilled tt)
    (Fulfilled learner)
    (Fulfilled (Api.mkDuplicateResult true None (Some "similar to 'der Hund'"))).

Definition photo_words_without_deck : WordSelectPage.Props :=
  WordSelectPage.mkProps ["Fuchs"; "Hund"; "Garten"] "".

End Sessions.

(* ===================================================================== *)
(** * Properties of the gateway and the session state                     *)
(* ===================================================================== *)

Section GatewayFacts.

Import Gateway App.

Context {runtime : Runtime}.

Lemma truthy_string_true (s : string) :
  truthy_string s = true <-> s <> "".
Proof.
  unfold truthy_string. destruct (String.eqb_spec s ""); simpl; split;
    congruence.
Qed.

Lemma truthy_string_false (s : string) :
  truthy_string s = false <-> s = "".
Proof.
  unfold truthy_string. destruct (String.eqb_spec s ""); simpl; split;
    congruence.
Qed.

Lemma setToken_authToken (token : option string) (w : Browser) :
  authToken (setToken token w) = token.
Proof.
  unfold setToken. destruct token as [t|]; simpl; [|reflexivity].
  destruct (truthy_string t); reflexivity.
Qed.

Lemma setToken_stored (token : option string) (w : Browser) :
  localStorage (setToken token w) !! "token"
  = if truthy_opt token then token else None.
Proof.
  unfold setToken. destruct token as [t|]; simpl.
  - destruct (truthy_string t); simpl.
    + apply lookup_insert_eq.
    + apply lookup_delete_eq.
  - apply lookup_delete_eq.
Qed.

Lemma setToken_other_keys (token : option string) (w : Browser) (k : string) :
  k <> "token" ->
  localStorage (setToken token w) !! k = localStorage w !! k.
Proof.
  intros Hk. unfold setToken. destruct token as [t|]; simpl.
  - destruct (truthy_string t); simpl.
    + by rewrite lookup_insert_ne.
    + by rewrite lookup_delete_ne.
  - by rewrite lookup_delete_ne.
Qed.

Lemma setToken_fetched (token : option string) (w : Browser) :
  fetched (setToken token w) = fetched w.
Proof.
  unfold setToken. destruct token as [t|]; simpl; [|reflexivity].
  destruct (truthy_string t); reflexivity.
Qed.

(** [request] issues one fetch, whatever the state and the answer. *)
Lemma request_fetched (network : Network) (path : string)
  (options : RequestInit) (w : Browser) :
  fetched (snd (request network path options w))
  = fetched w ++ [fetch_of path options w].
Proof.
  unfold request. simpl.
  destruct (network _) as [res|e]; [|reflexivity].
  destruct (negb (ok res)); simpl.
  - destruct (json res) as [v|e]; simpl.
    + destruct ((status res =? 401) && _); destruct (detail_of v); simpl;
        rewrite ?setToken_fetched; reflexivity.
    + destruct ((status res =? 401) && _); simpl;
        rewrite ?setToken_fetched; reflexivity.
  - destruct (status res =? 204); reflexivity.
Qed.

(** A 2xx answer other than 204 resolves with the parsed body as it is. *)
Lemma request_ok (network : Network) (path : string) (options : RequestInit)
  (w : Browser) (res : Response) :
  network (fetched w ++ [fetch_of path options w]) = Fulfilled res ->
  ok res = true ->
  fst (request network path options w)
  = if status res =? 204 then Fulfilled VUndefined else json res.
Proof.
  intros Hnet Hok. unfold request. simpl. rewrite Hnet, Hok. simpl.
  destruct (status res =? 204); reflexivity.
Qed.

(** What a non-2xx answer throws. *)
Lemma request_not_ok (network : Network) (path : string) (options : RequestInit)
  (w : Browser) (res : Response) :
  network (fetched w ++ [fetch_of path options w]) = Fulfilled res ->
  ok res = false ->
  fst (request network path options w)
  = match json res with
    | Rejected _ => Rejected (ErrorInstance (statusText res))
    | Fulfilled v =>
        match detail_of v with
        | Rejected e => Rejected e
        | Fulfilled d => Rejected (new_Error (js_or d (VStr (statusText res))))
        end
    end.
Proof.
  intros Hnet Hok. unfold request. simpl. rewrite Hnet, Hok. simpl.
  destruct (json res) as [v|e]; simpl.
  - destruct (detail_of v); destruct ((status res =? 401) && _); reflexivity.
  - unfold js_or. simpl.
    destruct (truthy_string (statusText res)); reflexivity.
Qed.

(** A 401 answer outside the login call clears the credential in memory
    and in the store and sends the browser to the login page. *)
Lemma request_401 (network : Network) (path : string) (options : RequestInit)
  (w : Browser) (res : Response) :
  network (fetched w ++ [fetch_of path options w]) = Fulfilled res ->
  status res = 401 ->
  String.prefix "/auth/login" path = false ->
  let w' := snd (request network path options w) in
  authToken w' = None /\ localStorage w' !! "token" = None /\ href w' = "/login".
Proof.
  intros Hnet Hst Hpath. unfold request. simpl. rewrite Hnet.
  unfold ok. rewrite Hst, Hpath. simpl.
  destruct (json res) as [v|e]; simpl.
  - destruct (detail_of v); simpl; rewrite lookup_delete_eq; auto.
  - rewrite lookup_delete_eq; auto.
Qed.

(** The body [null] parses, has no [detail] to read, and the read itself
    throws: the caller gets the runtime's [TypeError], not the status text. *)
Lemma request_null_body (network : Network) (path : string)
  (options : RequestInit) (w : Browser) (res : Response) :
  network (fetched w ++ [fetch_of path options w]) = Fulfilled res ->
  ok res = false ->
  json res = Fulfilled VNull ->
  fst (request network path options w) = Rejected null_property_error.
Proof.
  intros Hnet Hok Hjson.
  rewrite (request_not_ok _ _ _ _ _ Hnet Hok), Hjson. reflexivity.
Qed.

End GatewayFacts.

Section GatewayClaims.

Import Gateway App.

Context {runtime : Runtime}.

(** C9 (as amended).  [setToken] keeps the credential in memory and the
    stored one in step: a non-empty token becomes the in-memory credential
    and the value stored under ["token"], and a page load reads it back;
    [null] clears both, and a page load then starts without a credential;
    the in-memory credential of a fresh page load is whatever the store
    holds.  The selected deck id is read back from the store in the same
    way. *)
Theorem setToken_keeps_credential_in_sync (w : Browser) (token location : string)
  (Htoken : token <> "") :
  (authToken (setToken (Some token) w) = Some token
   /\ localStorage (setToken (Some token) w) !! "token" = Some token
   /\ authToken (load_module (localStorage (setToken (Some token) w)) location)
      = Some token)
  /\ (authToken (setToken None w) = None
      /\ localStorage (setToken None w) !! "token" = None
      /\ authToken (load_module (localStorage (setToken None w)) location) = None)
  /\ (forall storage : gmap string string,
        authToken (load_module storage location) = storage !! "token")
  /\ (forall (id : string) (storage : gmap string string),
        initial_selectedDeckId (snd (setSelectedDeckId id storage)) = id).
Proof.
  assert (Ht : truthy_opt (Some token) = true)
    by (simpl; by apply truthy_string_true).
  split; [|split; [|split]].
  - split; [apply setToken_authToken|].
    split; [by rewrite setToken_stored, Ht|].
    simpl. by rewrite setToken_stored, Ht.
  - split; [apply setToken_authToken|].
    split; [by rewrite setToken_stored|].
    change (localStorage (setToken None w) !! "token" = None).
    by rewrite setToken_stored.
  - reflexivity.
  - intros id storage. unfold setSelectedDeckId, initial_selectedDeckId. simpl.
    rewrite lookup_insert_eq.
    destruct (truthy_string id) eqn:E; [reflexivity|].
    symmetry. by apply truthy_string_false.
Qed.

(** C3 (as amended).  With no credential in session state [request] does
    not stop: it issues its one fetch to [API_BASE + path], adding no
    [Authorization] header, and the result is the server's answer -- the
    parsed body of a 2xx answer, and for a 401 answer outside the login
    call a thrown error after the move to the login page.  The credential
    gate is the route guard, which renders the login redirect. *)
Theorem request_without_credential_is_sent (network : Network) (path : string)
  (options : RequestInit) (w : Browser)
  (Hnone : truthy_opt (authToken w) = false) :
  fetched (snd (request network path options w))
    = fetched w ++ [fetch_of path options w]
  /\ url (fetch_of path options w) = API_BASE +:+ path
  /\ req_headers (fetch_of path options w) !! "Authorization"
     = init_headers options !! "Authorization"
  /\ ProtectedRoute w = NavigateTo "/login"
  /\ (forall res : Response,
        network (fetched w ++ [fetch_of path options w]) = Fulfilled res ->
        ok res = true ->
        fst (request network path options w)
        = if status res =? 204 then Fulfilled VUndefined else json res)
  /\ (forall res : Response,
        network (fetched w ++ [fetch_of path options w]) = Fulfilled res ->
        status res = 401 ->
        String.prefix "/auth/login" path = false ->
        (exists e, fst (request network path options w) = Rejected e)
        /\ href (snd (request network path options w)) = "/login").
Proof.
  split; [apply request_fetched|].
  split; [reflexivity|].
  split.
  { unfold fetch_of, request_headers. simpl.
    assert (Hh : match authToken w with
                 | Some t => if truthy_string t
                             then <["Authorization" := "Bearer " +:+ t]>
                                    (init_headers options)
                             else init_headers options
                 | None => init_headers options
                 end = init_headers options).
    { destruct (authToken w) as [t|]; [|reflexivity].
      simpl in Hnone. by rewrite Hnone. }
    rewrite Hh. destruct (is_FormData (init_body options)); [reflexivity|].
    by rewrite lookup_insert_ne. }
  split.
  { unfold ProtectedRoute, getToken. by rewrite Hnone. }
  split.
  { intros res Hnet Hok. by apply request_ok. }
  intros res Hnet Hst Hpath. split.
  - assert (Hok : ok res = false) by (unfold ok; rewrite Hst; reflexivity).
    rewrite (request_not_ok _ _ _ _ _ Hnet Hok).
    destruct (json res) as [v|e]; [|eauto].
    destruct (detail_of v); eauto.
  - by destruct (request_401 _ _ _ _ _ Hnet Hst Hpath) as (_ & _ & ?).
Qed.

(** C10 (as amended).  For a non-2xx answer whose body is not parseable
    JSON, or parses to a value other than [null] that has no [detail]
    property, [request] throws an [Error] whose message is exactly the HTTP
    status text (so the message is empty when the status text is). *)
Theorem request_falls_back_to_status_text (network : Network) (path : string)
  (options : RequestInit) (w : Browser) (res : Response)
  (Hnet : network (fetched w ++ [fetch_of path options w]) = Fulfilled res)
  (Hfail : ok res = false)
  (Hbody : match json res with
           | Rejected _ => True
           | Fulfilled v => v <> VNull /\ v <> VUndefined /\ has_detail v = false
           end) :
  fst (request network path options w) = Rejected (ErrorInstance (statusText res)).
Proof.
  rewrite (request_not_ok _ _ _ _ _ Hnet Hfail).
  destruct (json res) as [v|e]; [|reflexivity].
  destruct Hbody as (Hnull & Hundef & Hdetail).
  destruct v as [| |b|n|s|items|props]; try congruence; try reflexivity.
  simpl in *. destruct (lookup_prop "detail" props) as [d|] eqn:E.
  - exfalso. apply bool_decide_eq_false in Hdetail. apply Hdetail. eauto.
  - reflexivity.
Qed.

(** C7 (as amended).  [api.translate] hands back what the server sent: for
    a 2xx answer other than 204 the call resolves with the parsed body
    unchanged, so the candidate list has whatever length the body has,
    zero and four included; for a non-2xx answer it throws a plain [Error]
    whose message is the body's non-empty [detail] string, or the status
    text when the body is not JSON. *)
Theorem api_translate_passes_answer_through (network : Network)
  (data : TranslateData) (w : Browser) (res : Response)
  (Hnet : network (fetched w ++ [fetch_of "/translate" (translate_options data) w])
          = Fulfilled res) :
  (ok res = true -> status res <> 204 ->
   fst (api_translate network data w) = json res
   /\ forall items : list Value,
        json res = Fulfilled (VObj [("translations", VArr items)]) ->
        exists v, fst (api_translate network data w) = Fulfilled v
                  /\ translations_of v = Some items)
  /\ (ok res = false ->
      (forall (props : list (string * Value)) (detail : string),
         json res = Fulfilled (VObj props) ->
         lookup_prop "detail" props = Some (VStr detail) ->
         detail <> "" ->
         fst (api_translate network data w) = Rejected (ErrorInstance detail))
      /\ (forall e, json res = Rejected e ->
           fst (api_translate network data w)
           = Rejected (ErrorInstance (statusText res)))).
Proof.
  unfold api_translate. split.
  - intros Hok H204.
    assert (Hres : fst (request network "/translate" (translate_options data) w)
                   = json res).
    { rewrite (request_ok _ _ _ _ _ Hnet Hok).
      destruct (Z.eqb_spec (status res) 204); congruence. }
    split; [exact Hres|].
    intros items Hitems. exists (VObj [("translations", VArr items)]).
    split; [congruence|reflexivity].
  - intros Hfail. rewrite (request_not_ok _ _ _ _ _ Hnet Hfail). split.
    + intros props detail Hjson Hdetail Hne. rewrite Hjson. simpl.
      rewrite Hdetail. unfold js_or. simpl.
      apply truthy_string_true in Hne. by rewrite Hne.
    + intros e Hjson. by rewrite Hjson.
Qed.

End GatewayClaims.

Section GatewayExamples.

Import Gateway App Samples.

(** C9, as stated, at the empty token: it is not null, it becomes the
    in-memory credential, and the stored value is removed. *)
Lemma setToken_empty_token_is_not_stored :
  authToken (setToken (Some "") signed_in) = Some ""
  /\ localStorage (setToken (Some "") signed_in) !! "token" = None.
Proof.
  split; [apply setToken_authToken|].
  by rewrite setToken_stored.
Qed.

Lemma setToken_keeps_credential_in_sync_witness :
  "jwt" <> ""
  /\ localStorage (setToken (Some "jwt") signed_out) !! "token" = Some "jwt".
Proof.
  split; [discriminate|].
  exact (proj1 (proj2 (proj1
    (setToken_keeps_credential_in_sync signed_out "jwt" "/"
       ltac:(discriminate))))).
Defined.

(** C3, as stated, at a signed-out browser asking for the cards: the
    fetch is issued and the call resolves with the server's answer. *)
Lemma request_without_credential_still_fetches :
  authToken signed_out = None
  /\ fst (request (answers (VArr [])) "/cards" default_init signed_out)
     = Fulfilled (VArr [])
  /\ length (fetched (snd (request (answers (VArr [])) "/cards" default_init
                             signed_out))) = 1%nat.
Proof.
  split; [reflexivity|]. split; [reflexivity|].
  by rewrite request_fetched.
Qed.

Lemma request_without_credential_is_sent_witness :
  truthy_opt (authToken signed_out) = false
  /\ fetched (snd (request (answers VNull) "/cards" default_init signed_out))
     = [fetch_of "/cards" default_init signed_out].
Proof.
  split; [reflexivity|].
  exact (proj1 (request_without_credential_is_sent (answers VNull) "/cards"
                  default_init signed_out eq_refl)).
Defined.

(** C10, as stated, at an HTTP/2 failure whose body is not JSON: the
    thrown error has the empty message. *)
Lemma request_error_message_can_be_empty :
  ok (mkResponse 500 "" (Rejected (ErrorInstance "Unexpected token '<'"))) = false
  /\ fst (request fails_http2 "/translate" (translate_options hund_request)
            signed_in)
     = Rejected (ErrorInstance "").
Proof.
  split; reflexivity.
Qed.

Lemma request_falls_back_to_status_text_witness :
  fst (request fails_http2 "/cards" default_init signed_in)
  = Rejected (ErrorInstance "").
Proof.
  exact (request_falls_back_to_status_text fails_http2 "/cards" default_init
           signed_in
           (mkResponse 500 "" (Rejected (ErrorInstance "Unexpected token '<'")))
           eq_refl eq_refl I).
Defined.

(** C7, as stated, at a 200 answer carrying an empty list: the call
    succeeds with no candidate. *)
Lemma api_translate_resolves_with_no_candidates :
  fst (api_translate (answers no_candidates) hund_request signed_in)
  = Fulfilled no_candidates
  /\ (length <$> translations_of no_candidates) = Some 0%nat.
Proof.
  split; reflexivity.
Qed.

Lemma api_translate_passes_answer_through_witness :
  fst (api_translate (answers no_candidates) hund_request signed_in)
  = Fulfilled no_candidates.
Proof.
  exact (proj1 (proj1
    (api_translate_passes_answer_through (answers no_candidates) hund_request
       signed_in (mkResponse 200 "OK" (Fulfilled no_candidates)) eq_refl)
    eq_refl ltac:(discriminate))).
Defined.

End GatewayExamples.

(* ===================================================================== *)
(** * Properties of the translate page                                    *)
(* ===================================================================== *)

Section TranslatePageFacts.

Import Async Api TranslatePage.

Variable props : Props.

(** What [formatWithTranslation] does, by the answer of [formatCard]. *)
Lemma formatWithTranslation_run (env : Env Call) (opt : TranslationOption)
  (nativeLanguage : option string) (s : State) :
  run env (formatWithTranslation props opt nativeLanguage) s
  = let base :=
      mkState formatting "" (translations_ s) (Some opt) (cardData s)
              (saving s) (addingNative s) in
    let ask :=
      FormatCard (deckId props) (opt_word opt) (translation opt)
                 (part_of_speech opt) (context opt) nativeLanguage in
    let start :=
      [Wrote (setChosenTranslation (Some opt)); Wrote (setPhase formatting);
       Wrote (setError ""); Called ask] in
    match env _ ask with
    | Fulfilled draft =>
        mkOutcome (Fulfilled tt)
          (mkState preview "" (translations_ s) (Some opt) (Some draft)
                   (saving s) (addingNative s))
          (start ++ [Wrote (setCardData (Some draft)); Wrote (setPhase preview)])
    | Rejected err =>
        mkOutcome (Fulfilled tt)
          (mkState choosing (message_or err "Card formatting failed")
                   (translations_ s) (Some opt) (cardData s)
                   (saving s) (addingNative s))
          (start ++ [Wrote (setError (message_or err "Card formatting failed"));
                     Wrote (setPhase choosing)])
    end.
Proof.
  unfold formatWithTranslation. cbn.
  destruct (env _ _) as [draft|err]; reflexivity.
Qed.

Lemma loadTranslations_one (env : Env Call) (s : State) (only : TranslationOption) :
  env _ (Translate (word props) "" "" (deckId props))
    = Fulfilled (mkTranslateResult [only]) ->
  run env (loadTranslations props) s
  = let inner :=
      run env (formatWithTranslation props only None)
        (mkState translating "" [only] (chosenTranslation s) (cardData s)
                 (saving s) (addingNative s)) in
    mkOutcome (result inner) (final inner)
      (load_start props ++ Wrote (setTranslations [only]) :: trace inner).
Proof.
  intros Htr. unfold loadTranslations. cbn. rewrite Htr. cbn.
  destruct (env _ (FormatCard _ _ _ _ _ _)) as [draft|err]; reflexivity.
Qed.

Lemma loadTranslations_not_one (env : Env Call) (s : State)
  (l : list TranslationOption) :
  env _ (Translate (word props) "" "" (deckId props))
    = Fulfilled (mkTranslateResult l) ->
  length l <> 1%nat ->
  run env (loadTranslations props) s
  = mkOutcome (Fulfilled tt)
      (mkState choosing "" l (chosenTranslation s) (cardData s)
               (saving s) (addingNative s))
      (load_start props ++ [Wrote (setTranslations l); Wrote (setPhase choosing)]).
Proof.
  intros Htr Hlen. unfold loadTranslations. cbn. rewrite Htr. cbn.
  destruct l as [|a [|b l]]; simpl in Hlen; try congruence; reflexivity.
Qed.

Lemma loadTranslations_failed (env : Env Call) (s : State) (err : Thrown) :
  env _ (Translate (word props) "" "" (deckId props)) = Rejected err ->
  run env (loadTranslations props) s
  = mkOutcome (Fulfilled tt)
      (mkState choosing (message_or err "Translation failed") (translations_ s)
               (chosenTranslation s) (cardData s) (saving s) (addingNative s))
      (load_start props ++ [Wrote (setError (message_or err "Translation failed"));
                      Wrote (setPhase choosing)]).
Proof.
  intros Htr. unfold loadTranslations. cbn. rewrite Htr. reflexivity.
Qed.

(** C2.  When translate answers with exactly one candidate, the run goes
    from translating straight to formatting with that candidate (it is the
    chosen one and the one [formatCard] is asked about), and when
    formatting succeeds the phases are translating, formatting, preview:
    choosing is not among them.  When translate answers with two or more
    candidates, the run enters choosing and formats nothing. *)
Theorem single_candidate_skips_choosing (env : Env Call) (s : State)
  (l : list TranslationOption)
  (Htr : env _ (Translate (word props) "" "" (deckId props))
         = Fulfilled (mkTranslateResult l)) :
  (forall only : TranslationOption, l = [only] ->
     take 2 (phases (trace (run env (loadTranslations props) s)))
       = [translating; formatting]
     /\ chosenTranslation (final (run env (loadTranslations props) s)) = Some only
     /\ List.filter (fun e => match e with
                              | Called c => is_formatCard _ c
                              | Wrote _ => false
                              end)
          (trace (run env (loadTranslations props) s))
        = [Called (FormatCard (deckId props) (opt_word only) (translation only)
                     (part_of_speech only) (context only) None)]
     /\ forall draft : CardData,
          env _ (FormatCard (deckId props) (opt_word only) (translation only)
                   (part_of_speech only) (context only) None) = Fulfilled draft ->
          phases (trace (run env (loadTranslations props) s))
            = [translating; formatting; preview]
          /\ (choosing ∉ phases (trace (run env (loadTranslations props) s)))
          /\ phase (final (run env (loadTranslations props) s)) = preview
          /\ cardData (final (run env (loadTranslations props) s)) = Some draft)
  /\ ((2 <= length l)%nat ->
      phases (trace (run env (loadTranslations props) s))
        = [translating; choosing]
      /\ phase (final (run env (loadTranslations props) s)) = choosing
      /\ translations_ (final (run env (loadTranslations props) s)) = l
      /\ count is_formatCard (trace (run env (loadTranslations props) s)) = 0%nat).
Proof.
  split.
  - intros only ->. rewrite (loadTranslations_one _ _ _ Htr).
    rewrite formatWithTranslation_run. cbn.
    destruct (env _ (FormatCard _ _ _ _ _ _)) as [draft|err] eqn:Hfmt; cbn.
    + split; [reflexivity|]. split; [reflexivity|]. split; [reflexivity|].
      intros draft' [= <-].
      split; [reflexivity|]. split; [|split; reflexivity].
      intros Hin.
      repeat (apply elem_of_cons in Hin as [Hin|Hin]; [discriminate|]).
      by apply elem_of_nil in Hin.
    + split; [reflexivity|]. split; [reflexivity|]. split; [reflexivity|].
      intros draft' [=].
  - intros Hlen. rewrite (loadTranslations_not_one _ _ _ Htr) by lia.
    repeat split; reflexivity.
Qed.

(** The one candidate whose formatting fails: the run falls back to
    choosing with the formatting error, the candidate list of one still
    there to pick from. *)
Lemma single_candidate_format_failure_falls_back (env : Env Call) (s : State)
  (only : TranslationOption) (err : Thrown) :
  env _ (Translate (word props) "" "" (deckId props))
    = Fulfilled (mkTranslateResult [only]) ->
  env _ (FormatCard (deckId props) (opt_word only) (translation only)
           (part_of_speech only) (context only) None) = Rejected err ->
  phases (trace (run env (loadTranslations props) s))
    = [translating; formatting; choosing]
  /\ error (final (run env (loadTranslations props) s))
     = message_or err "Card formatting failed"
  /\ translations_ (final (run env (loadTranslations props) s)) = [only].
Proof.
  intros Htr Hfmt. rewrite (loadTranslations_one _ _ _ Htr).
  rewrite formatWithTranslation_run. cbn. rewrite Hfmt. by repeat split.
Qed.

(** C5 (as amended).  When translate answers with no candidate, nothing is
    thrown and no error is set: the run makes no further call, ends in
    choosing with an empty candidate list, and the view then shows no
    error banner, no candidate to pick and, for a word, the one button back
    to the word list. *)
Theorem zero_candidates_enter_choosing_without_error (env : Env Call) (s : State)
  (Htr : env _ (Translate (word props) "" "" (deckId props))
         = Fulfilled (mkTranslateResult [])) :
  result (run env (loadTranslations props) s) = Fulfilled tt
  /\ trace (run env (loadTranslations props) s)
     = load_start props ++ [Wrote (setTranslations []); Wrote (setPhase choosing)]
  /\ phase (final (run env (loadTranslations props) s)) = choosing
  /\ error (final (run env (loadTranslations props) s)) = ""
  /\ translations_ (final (run env (loadTranslations props) s)) = []
  /\ error_banner props (final (run env (loadTranslations props) s)) = None
  /\ (forall i : nat,
        on_click props (final (run env (loadTranslations props) s))
          (OptionButton i) = None)
  /\ (word props <> "" ->
      nav_buttons props (final (run env (loadTranslations props) s)) = ["/words"]).
Proof.
  rewrite (loadTranslations_not_one _ _ _ Htr) by (simpl; lia). cbn.
  repeat split; try reflexivity.
  - unfold error_banner. cbn. by destruct (negb _).
  - intros i. unfold on_click. cbn. by destruct (negb _).
  - intros Hword. unfold nav_buttons. cbn.
    apply truthy_string_true in Hword. by rewrite Hword.
Qed.

(** One Accept click, by the answers of the two calls. *)
Lemma handleAccept_run (env : Env Call) (s : State) (data : CardData) :
  cardData s = Some data ->
  click env (handleAccept props) s
  = match env _ (create_for props data) with
    | Fulfilled created =>
        match env _ (AcceptCard (card_id created)) with
        | Fulfilled _ =>
            mkOutcome (Fulfilled tt)
              (mkState saved (error s) (translations_ s) (chosenTranslation s)
                       (Some data) false (addingNative s))
              [Wrote (setSaving true); Called (create_for props data);
               Called (AcceptCard (card_id created)); Wrote (setPhase saved);
               Wrote (setSaving false)]
        | Rejected err =>
            mkOutcome (Fulfilled tt)
              (mkState (phase s) (message_or err "Failed to save card")
                       (translations_ s) (chosenTranslation s) (Some data)
                       false (addingNative s))
              [Wrote (setSaving true); Called (create_for props data);
               Called (AcceptCard (card_id created));
               Wrote (setError (message_or err "Failed to save card"));
               Wrote (setSaving false)]
        end
    | Rejected err =>
        mkOutcome (Fulfilled tt)
          (mkState (phase s) (message_or err "Failed to save card")
                   (translations_ s) (chosenTranslation s) (Some data)
                   false (addingNative s))
          [Wrote (setSaving true); Called (create_for props data);
           Wrote (setError (message_or err "Failed to save card"));
           Wrote (setSaving false)]
    end.
Proof.
  intros Hdata. unfold Async.click, handleAccept, create_for.
  rewrite Hdata. cbn.
  destruct (env _ (CreateCard _ _ _ _)) as [created|err]; cbn;
    [|by rewrite Hdata].
  destruct (env _ (AcceptCard (card_id created))) as [[]|err]; cbn;
    by rewrite Hdata.
Qed.

(** C1 (as amended).  Every Accept click on a preview holding a draft
    calls [createCard] once for that draft and then, if the card was
    created, [acceptCard] for the id this [createCard] returned.  When the
    card is created and [acceptCard] fails, the page stays where it was
    with the draft intact, the error shown and the button enabled again;
    the retry calls [createCard] again and accepts the id of the card the
    retry created, so the two attempts make two [createCard] calls. *)
Theorem accept_retry_creates_card_again (env retry : Env Call) (s : State)
  (data : CardData) (created : CreatedCard) (err : Thrown)
  (Hdata : cardData s = Some data)
  (Hcreate : env _ (create_for props data) = Fulfilled created)
  (Haccept : env _ (AcceptCard (card_id created)) = Rejected err) :
  trace (click env (handleAccept props) s)
    = [Wrote (setSaving true); Called (create_for props data);
       Called (AcceptCard (card_id created));
       Wrote (setError (message_or err "Failed to save card"));
       Wrote (setSaving false)]
  /\ final (click env (handleAccept props) s)
     = mkState (phase s) (message_or err "Failed to save card") (translations_ s)
               (chosenTranslation s) (Some data) false (addingNative s)
  /\ (word props <> "" -> phase s = preview ->
      on_click props (final (click env (handleAccept props) s)) AcceptButton
      = Some (handleAccept props (final (click env (handleAccept props) s))))
  /\ count is_createCard
       (trace (click retry (handleAccept props)
                 (final (click env (handleAccept props) s)))) = 1%nat
  /\ count is_createCard
       (trace (click env (handleAccept props) s)
        ++ trace (click retry (handleAccept props)
                    (final (click env (handleAccept props) s)))) = 2%nat
  /\ (forall again : CreatedCard,
        retry _ (create_for props data) = Fulfilled again ->
        take 3 (trace (click retry (handleAccept props)
                         (final (click env (handleAccept props) s))))
        = [Wrote (setSaving true); Called (create_for props data);
           Called (AcceptCard (card_id again))]).
Proof.
  rewrite (handleAccept_run env s data Hdata), Hcreate, Haccept.
  cbn [final trace].
  split; [reflexivity|]. split; [reflexivity|]. split.
  { intros Hword ->. unfold on_click. cbn.
    apply truthy_string_true in Hword. by rewrite Hword. }
  rewrite (handleAccept_run retry _ data) by reflexivity. cbn.
  destruct (retry _ (create_for props data)) as [again|err'] eqn:Hagain; cbn.
  - destruct (retry _ (AcceptCard (card_id again))) as [[]|err'']; cbn;
      (split; [reflexivity|]; split; [reflexivity|]);
      intros again' [= <-]; reflexivity.
  - split; [reflexivity|]. split; [reflexivity|]. intros again' [=].
Qed.

(** One "Add Native Translation" click keeps the chosen candidate. *)
Lemma handleAddNativeTranslation_keeps_chosen (env : Env Call) (s : State)
  (chosen : TranslationOption) :
  chosenTranslation s = Some chosen ->
  chosenTranslation (final (click env (handleAddNativeTranslation props) s))
  = Some chosen.
Proof.
  intros Hch. unfold Async.click, handleAddNativeTranslation. rewrite Hch. cbn.
  destruct (env _ GetMe) as [user|err]; cbn; [|exact Hch].
  destruct (native_language user) as [nl|]; cbn; [|exact Hch].
  destruct (truthy_string nl); cbn; [|exact Hch].
  destruct (env _ (FormatCard _ _ _ _ _ _)); reflexivity.
Qed.

(** One click whose formatting succeeds holds the new draft, whatever was
    held before. *)
Lemma handleAddNativeTranslation_replaces (env : Env Call) (s : State)
  (chosen : TranslationOption) (draft : CardData) :
  chosenTranslation s = Some chosen ->
  formats_native props chosen env draft ->
  final (click env (handleAddNativeTranslation props) s)
  = mkState preview "" (translations_ s) (Some chosen) (Some draft)
            (saving s) false.
Proof.
  intros Hch (user & nl & Hme & Hnl & Hne & Hfmt).
  unfold Async.click, handleAddNativeTranslation. rewrite Hch. cbn.
  rewrite Hme. cbn. rewrite Hnl. cbn.
  apply truthy_string_true in Hne. rewrite Hne. cbn.
  rewrite Hfmt. reflexivity.
Qed.

Lemma clicks_snoc (handler : State -> Handler) (envs : list (Env Call))
  (env : Env Call) (s : State) :
  clicks handler (envs ++ [env]) s
  = final (click env handler (clicks handler envs s)).
Proof.
  revert s. induction envs as [|e envs IH]; intros s; simpl; [reflexivity|].
  apply IH.
Qed.

Lemma clicks_keep_chosen (envs : list (Env Call)) (s : State)
  (chosen : TranslationOption) :
  chosenTranslation s = Some chosen ->
  chosenTranslation (clicks (handleAddNativeTranslation props) envs s)
  = Some chosen.
Proof.
  revert s. induction envs as [|e envs IH]; intros s Hch; simpl; [exact Hch|].
  apply IH. by apply handleAddNativeTranslation_keeps_chosen.
Qed.

(** C6.  After any number of "Add Native Translation" clicks, however the
    earlier ones went, a click that reaches formatting and gets a draft
    leaves that draft, whole and alone, as the card data of the session:
    the state has one slot for the draft and the new one takes it. *)
Theorem add_native_translation_replaces_draft (earlier : list (Env Call))
  (env : Env Call) (s : State) (chosen : TranslationOption) (draft : CardData)
  (Hchosen : chosenTranslation s = Some chosen)
  (Hformats : formats_native props chosen env draft) :
  cardData (clicks (handleAddNativeTranslation props) (earlier ++ [env]) s)
    = Some draft
  /\ chosenTranslation
       (clicks (handleAddNativeTranslation props) (earlier ++ [env]) s)
     = Some chosen
  /\ phase (clicks (handleAddNativeTranslation props) (earlier ++ [env]) s)
     = preview.
Proof.
  rewrite clicks_snoc.
  rewrite (handleAddNativeTranslation_replaces env _ chosen draft);
    [by repeat split| |exact Hformats].
  by apply clicks_keep_chosen.
Qed.

End TranslatePageFacts.

(* ===================================================================== *)
(** * Properties of interleaved handlers                                  *)
(* ===================================================================== *)

Section MachineFacts.

Import Async.

Context {Call : Type -> Type} {Write State Origin : Type}.
Variable apply : Write -> State -> State.
Variable handler : State -> Origin -> option (Prog Call Write unit).

Local Abbreviation World := (Async.World Call Write State Origin).
Local Abbreviation Task := (Async.Task Call Write Origin).
Local Abbreviation step := (Async.step apply handler).
Local Abbreviation reachable := (Async.reachable apply handler).
Local Abbreviation proceed := (Async.proceed apply).

Lemma avoids_weaken (P P' : forall R : Type, Call R -> bool)
  (p : Prog Call Write unit) :
  (forall R (c : Call R), P' R c = false -> P R c = false) ->
  avoids P' p -> avoids P p.
Proof.
  intros HP. induction p as [a|e|w k IH|R c k IH]; simpl; auto.
  intros [Hc Hk]. split; auto.
Qed.

Lemma press_reachable (w0 w : World) (o : Origin) :
  reachable w0 w -> reachable w0 (press apply handler o w).
Proof.
  intros Hw. unfold press.
  destruct (handler (ui w) o) as [p|] eqn:Hh; [|assumption].
  destruct (mounted w) eqn:Hm; [|assumption].
  eapply reachable_step; [eassumption|]. by constructor.
Qed.

Lemma settle_reachable (w0 w : World) (n : nat) (env : Env Call) :
  reachable w0 w -> reachable w0 (settle apply n env w).
Proof.
  intros Hw. unfold settle.
  destruct (pending w !! n) as [[o [a|e|x k|R c k]]|] eqn:Hn; try assumption.
  eapply reachable_step; [eassumption|]. by econstructor.
Qed.

(** **** Properties every waiting run inherits from its handler *)

Section Inherited.

Variable Q : Origin -> Prog Call Write unit -> Prop.
Hypothesis Q_do : forall o w k, Q o (Do w k) -> Q o k.
Hypothesis Q_await :
  forall o (R : Type) (c : Call R) k r, Q o (Await c k) -> Q o (k r).
Hypothesis Q_handler : forall s o p, handler s o = Some p -> Q o p.

Lemma inherited_advance (o : Origin) (p : Prog Call Write unit) (s : State) :
  Q o p -> Q o (fst (advance apply p s)).
Proof.
  revert s. induction p as [a|e|w k IH|R c k IH]; intros s Hq; simpl; eauto.
Qed.

Lemma inherited_skip (o : Origin) (p : Prog Call Write unit) :
  Q o p -> Q o (skip_writes p).
Proof.
  induction p as [a|e|w k IH|R c k IH]; intros Hq; simpl; eauto.
Qed.

Lemma inherited_proceed (o : Origin) (p : Prog Call Write unit)
  (others : list Task) (w : World) :
  Q o p ->
  Forall (fun t => Q (fst t) (snd t)) others ->
  Forall (fun t => Q (fst t) (snd t)) (pending (proceed o p others w)).
Proof.
  intros Hq Hothers. unfold Async.proceed, keep.
  destruct (mounted w).
  - pose proof (inherited_advance o p (ui w) Hq) as Hq'.
    destruct (advance apply p (ui w)) as [p' s']. simpl in *.
    destruct (suspended p'); [|assumption].
    apply Forall_app. split; [assumption|]. by constructor.
  - simpl. destruct (suspended (skip_writes p)); [|assumption].
    apply Forall_app. split; [assumption|].
    constructor; [|constructor]. by apply inherited_skip.
Qed.

Lemma inherited_step (w w' : World) :
  step w w' ->
  Forall (fun t => Q (fst t) (snd t)) (pending w) ->
  Forall (fun t => Q (fst t) (snd t)) (pending w').
Proof.
  intros Hstep Hall. destruct Hstep as [w o p Hm Hh|w n o R c k r Hn|w Hm].
  - apply inherited_proceed; eauto.
  - apply inherited_proceed.
    + apply (Q_await o R c k r).
      exact (proj1 (Forall_lookup _ _) Hall n (o, Await c k) Hn).
    + by apply Forall_delete.
  - assumption.
Qed.

Lemma inherited_reachable (w0 w : World) :
  reachable w0 w ->
  Forall (fun t => Q (fst t) (snd t)) (pending w0) ->
  Forall (fun t => Q (fst t) (snd t)) (pending w).
Proof.
  induction 1 as [|w w' _ IH Hstep]; intros H0; [assumption|].
  eapply inherited_step; eauto.
Qed.

End Inherited.

(** **** One run at a time for controls disabled by a flag *)

Section Exclusive.

(** The controls of the class [G] are rendered disabled while [flag] is
    raised; [touches] tells which writes set the flag. *)
Variable G : Origin -> bool.
Variable flag : State -> bool.
Variable touches : Write -> option bool.

Hypothesis flag_set :
  forall w s b, touches w = Some b -> flag (apply w s) = b.
Hypothesis flag_kept :
  forall w s, touches w = None -> flag (apply w s) = flag s.
Hypothesis G_enabled :
  forall s o p, handler s o = Some p -> G o = true ->
    flag s = false /\ guarded touches false p.
Hypothesis others_untouched :
  forall s o p, handler s o = Some p -> G o = false -> untouched touches p.

Local Abbreviation task_ok := (@Async.task_ok Call Write Origin G touches).
Local Abbreviation exclusive := (@Async.exclusive Call Write State Origin G flag touches).
Local Abbreviation count_G := (@Async.count_started Call Write Origin G).

Lemma advance_guarded (p : Prog Call Write unit) (s : State) :
  guarded touches (flag s) p ->
  suspended (fst (advance apply p s)) = true ->
  guarded touches true (fst (advance apply p s))
  /\ flag (snd (advance apply p s)) = true.
Proof.
  revert s. induction p as [a|e|w k IH|R c k IH]; intros s Hg Hs; simpl in *;
    try discriminate.
  - apply IH; [|assumption].
    destruct (touches w) as [b|] eqn:E; simpl in Hg.
    + by rewrite (flag_set _ _ _ E).
    + by rewrite (flag_kept _ _ E).
  - destruct Hg as [Hheld Hk]. split; [by split|assumption].
Qed.

Lemma skip_guarded (p : Prog Call Write unit) (held : bool) :
  guarded touches held p ->
  suspended (skip_writes p) = true ->
  guarded touches true (skip_writes p).
Proof.
  revert held. induction p as [a|e|w k IH|R c k IH]; intros held Hg Hs;
    simpl in *; try discriminate.
  - eapply IH; eauto.
  - destruct Hg as [_ Hk]. by split.
Qed.

Lemma advance_untouched (p : Prog Call Write unit) (s : State) :
  untouched touches p ->
  untouched touches (fst (advance apply p s))
  /\ flag (snd (advance apply p s)) = flag s.
Proof.
  revert s. induction p as [a|e|w k IH|R c k IH]; intros s Hu; simpl in *;
    try (split; [assumption || exact I|reflexivity]).
  destruct Hu as [Hw Hk]. destruct (IH (apply w s) Hk) as [H1 H2].
  split; [assumption|]. by rewrite H2, (flag_kept _ _ Hw).
Qed.

Lemma skip_untouched (p : Prog Call Write unit) :
  untouched touches p -> untouched touches (skip_writes p).
Proof.
  induction p as [a|e|w k IH|R c k IH]; intros Hu; simpl in *; try assumption.
  destruct Hu as [_ Hk]. by apply IH.
Qed.

Lemma count_G_snoc (l : list Task) (t : Task) :
  count_G (l ++ [t]) = (count_G l + if G (fst t) then 1 else 0)%nat.
Proof.
  unfold Async.count_started. rewrite List.filter_app, length_app. simpl.
  by destruct (G (fst t)).
Qed.

Lemma count_G_delete (l : list Task) (n : nat) (t : Task) :
  l !! n = Some t ->
  count_G l = (count_G (delete n l) + if G (fst t) then 1 else 0)%nat.
Proof.
  revert n. induction l as [|x l IH]; intros [|n] Hn; simpl in *;
    try discriminate.
  - injection Hn as ->. unfold Async.count_started. simpl.
    destruct (G (fst t)); simpl; lia.
  - specialize (IH n Hn). unfold Async.count_started in *. simpl.
    destruct (G (fst x)); simpl; lia.
Qed.

(** Starting or resuming a run of the class, no other run of the class
    waiting. *)
Lemma proceed_exclusive_G (o : Origin) (p : Prog Call Write unit)
  (others : list Task) (w : World) :
  G o = true ->
  guarded touches (flag (ui w)) p ->
  (mounted w = false -> flag (ui w) = true) ->
  Forall task_ok others ->
  count_G others = 0%nat ->
  exclusive (proceed o p others w).
Proof.
  intros HG Hg Hdead Hothers Hzero. unfold Async.exclusive, started_by, Async.proceed, keep.
  destruct (mounted w).
  - pose proof (advance_guarded p (ui w) Hg) as Hadv.
    destruct (advance apply p (ui w)) as [p' s']. simpl in *.
    destruct (suspended p') eqn:Es; simpl.
    + destruct (Hadv eq_refl) as [Hg' Hf]. split.
      * apply Forall_app. split; [assumption|].
        constructor; [|constructor]. unfold Async.task_ok. simpl. by rewrite HG.
      * right. rewrite count_G_snoc. simpl. rewrite HG, Hzero. by split.
    + split; [assumption|]. left. exact Hzero.
  - simpl. destruct (suspended (skip_writes p)) eqn:Es; simpl.
    + split.
      * apply Forall_app. split; [assumption|].
        constructor; [|constructor]. unfold Async.task_ok. simpl. rewrite HG.
        eapply skip_guarded; eauto.
      * right. rewrite count_G_snoc. simpl. rewrite HG, Hzero. split; [reflexivity|].
        by apply Hdead.
    + split; [assumption|]. left. exact Hzero.
Qed.

(** Starting or resuming a run outside the class. *)
Lemma proceed_exclusive_other (o : Origin) (p : Prog Call Write unit)
  (others : list Task) (w : World) :
  G o = false ->
  untouched touches p ->
  Forall task_ok others ->
  (count_G others = 0%nat \/ (count_G others = 1%nat /\ flag (ui w) = true)) ->
  exclusive (proceed o p others w).
Proof.
  intros HG Hu Hothers Hcount. unfold Async.exclusive, started_by, Async.proceed, keep.
  destruct (mounted w).
  - pose proof (advance_untouched p (ui w) Hu) as [Hu' Hf].
    destruct (advance apply p (ui w)) as [p' s']. simpl in *.
    destruct (suspended p') eqn:Es; simpl.
    + split.
      * apply Forall_app. split; [assumption|].
        constructor; [|constructor]. unfold Async.task_ok. simpl. by rewrite HG.
      * rewrite count_G_snoc. simpl. rewrite HG, Nat.add_0_r, Hf. exact Hcount.
    + split; [assumption|]. by rewrite Hf.
  - simpl. destruct (suspended (skip_writes p)) eqn:Es; simpl.
    + split.
      * apply Forall_app. split; [assumption|].
        constructor; [|constructor]. unfold Async.task_ok. simpl. rewrite HG.
        by apply skip_untouched.
      * rewrite count_G_snoc. simpl. by rewrite HG, Nat.add_0_r.
    + split; [assumption|]. exact Hcount.
Qed.

Lemma exclusive_step (w w' : World) :
  step w w' -> exclusive w -> exclusive w'.
Proof.
  intros Hstep [Hall Hcount]. unfold started_by in Hcount.
  destruct Hstep as [w o p Hm Hh|w n o R c k r Hn|w Hm].
  - destruct (G o) eqn:HG.
    + destruct (G_enabled _ _ _ Hh HG) as [Hf Hg].
      apply proceed_exclusive_G; try assumption.
      * by rewrite Hf.
      * intros Hdead. congruence.
      * destruct Hcount as [Hz|[_ Ht]]; [assumption|congruence].
    + apply proceed_exclusive_other; try assumption.
      eapply others_untouched; eauto.
  - pose proof (proj1 (Forall_lookup _ _) Hall n _ Hn) as Hok.
    pose proof (count_G_delete _ _ _ Hn) as Hdel.
    unfold Async.task_ok in Hok. simpl in *.
    assert (Hothers : Forall task_ok (delete n (pending w)))
      by (by apply Forall_delete).
    destruct (G o) eqn:HG; try rewrite HG in Hdel; try rewrite HG in Hok.
    + destruct Hcount as [Hz|[Hone Hf]]; [lia|].
      destruct Hok as [_ Hk].
      apply proceed_exclusive_G; try assumption.
      * rewrite Hf. apply Hk.
      * intros _. exact Hf.
      * lia.
    + apply proceed_exclusive_other; try assumption.
      * apply Hok.
      * rewrite Nat.add_0_r in Hdel. by rewrite <- Hdel.
  - split; assumption.
Qed.

Lemma exclusive_reachable (w0 w : World) :
  reachable w0 w -> exclusive w0 -> exclusive w.
Proof.
  induction 1 as [|w w' _ IH Hstep]; intros H0; [assumption|].
  eapply exclusive_step; eauto.
Qed.

Lemma exclusive_at_most_one (w : World) :
  exclusive w -> (started_by G w <= 1)%nat.
Proof.
  intros [_ [Hz|[Hone _]]]; lia.
Qed.

(** A call of kind [P] that only the class awaits is in flight at most as
    often as the class has runs waiting. *)
Lemma in_flight_le_started (P : forall R : Type, Call R -> bool) (w : World) :
  Forall (fun t : Task => G (fst t) = false -> avoids P (snd t)) (pending w) ->
  (in_flight P w <= started_by G w)%nat.
Proof.
  unfold in_flight, started_by, Async.count_started. induction (pending w) as [|t l IH];
    intros Hall; simpl; [lia|].
  inversion Hall as [|? ? Ht Hl]; subst. specialize (IH Hl).
  destruct t as [o p]. simpl in *.
  destruct (G o) eqn:HG; simpl.
  - destruct p; simpl; try lia. destruct (P R c); simpl; lia.
  - destruct p as [a|e|x k|R c k]; simpl; try lia.
    destruct (Ht eq_refl) as [Hc _]. rewrite Hc. lia.
Qed.

End Exclusive.

End MachineFacts.

(* ===================================================================== *)
(** * Calls in flight on the two pages                                    *)
(* ===================================================================== *)

(** Walks through a handler: every write, and both settlements of every
    awaited call. *)
Ltac walk :=
  repeat first
    [ progress cbn
    | match goal with
      | |- _ /\ _ => split
      | |- forall _ : Settled _, _ => intros [?|?]
      | |- forall _, _ => intro
      | |- True => exact I
      | |- _ = _ => reflexivity
      end ].

Section TranslatePageFlight.

Import Async Api TranslatePage.

Variable props : Props.

Lemma formatWithTranslation_shape (touches : Write -> option bool)
  (opt : TranslationOption) (nativeLanguage : option string) :
  (forall o, touches (setChosenTranslation o) = None) ->
  (forall p, touches (setPhase p) = None) ->
  (forall e, touches (setError e) = None) ->
  (forall d, touches (setCardData d) = None) ->
  untouched touches (formatWithTranslation props opt nativeLanguage)
  /\ avoids is_persist (formatWithTranslation props opt nativeLanguage).
Proof.
  intros H1 H2 H3 H4. unfold formatWithTranslation. split; walk; auto.
Qed.

Lemma loadTranslations_shape (touches : Write -> option bool) :
  (forall o, touches (setChosenTranslation o) = None) ->
  (forall p, touches (setPhase p) = None) ->
  (forall e, touches (setError e) = None) ->
  (forall d, touches (setCardData d) = None) ->
  (forall l, touches (setTranslations l) = None) ->
  untouched touches (loadTranslations props)
  /\ avoids is_persist (loadTranslations props).
Proof.
  intros H1 H2 H3 H4 H5. unfold loadTranslations. split.
  - cbn. split; [auto|]. split; [auto|]. intros [result|err]; cbn.
    + split; [auto|].
      destruct (translations result) as [|only [|]]; walk; auto.
    + auto.
  - cbn. split; [reflexivity|]. intros [result|err]; cbn; [|exact I].
    destruct (translations result) as [|only [|]]; walk; auto.
Qed.

Lemma handleAccept_guarded (s : State) :
  guarded touches_saving false (handleAccept props s)
  /\ untouched touches_addingNative (handleAccept props s).
Proof.
  unfold handleAccept. destruct (cardData s) as [data|]; split; walk.
Qed.

Lemma handleAddNativeTranslation_guarded (s : State) :
  guarded touches_addingNative false (handleAddNativeTranslation props s)
  /\ untouched touches_saving (handleAddNativeTranslation props s)
  /\ avoids is_persist (handleAddNativeTranslation props s).
Proof.
  unfold handleAddNativeTranslation.
  destruct (chosenTranslation s) as [chosen|]; [|by walk].
  split; [|split].
  - cbn. split; [reflexivity|]. intros [user|err]; [|by walk].
    cbn. destruct (negb (truthy_opt (native_language user))); by walk.
  - cbn. split; [reflexivity|]. intros [user|err]; [|by walk].
    cbn. destruct (negb (truthy_opt (native_language user))); by walk.
  - cbn. split; [reflexivity|]. intros [user|err]; [|by walk].
    cbn. destruct (negb (truthy_opt (native_language user))); by walk.
Qed.

Lemma saving_set (w : Write) (s : State) (b : bool) :
  touches_saving w = Some b -> saving (apply w s) = b.
Proof. destruct w; simpl; congruence. Qed.

Lemma saving_kept (w : Write) (s : State) :
  touches_saving w = None -> saving (apply w s) = saving s.
Proof. destruct w; simpl; congruence. Qed.

Lemma addingNative_set (w : Write) (s : State) (b : bool) :
  touches_addingNative w = Some b -> addingNative (apply w s) = b.
Proof. destruct w; simpl; congruence. Qed.

Lemma addingNative_kept (w : Write) (s : State) :
  touches_addingNative w = None -> addingNative (apply w s) = addingNative s.
Proof. destruct w; simpl; congruence. Qed.

(** The handler behind each control, as the render gives it. *)
Lemma handler_cases (s : State) (o : Origin) (p : Handler) :
  handler props s o = Some p ->
  (exists i opt, o = Some (OptionButton i)
                 /\ p = formatWithTranslation props opt None)
  \/ (o = Some AcceptButton /\ saving s = false /\ p = handleAccept props s)
  \/ (o = Some AddNativeButton /\ addingNative s = false
      /\ p = handleAddNativeTranslation props s).
Proof.
  destruct o as [c|]; simpl; [|discriminate].
  unfold on_click. destruct (negb (truthy_string (word props))); [discriminate|].
  destruct (phase s), c as [i| |]; try discriminate.
  - destruct (translations_ s !! i) as [opt|]; simpl; [|discriminate].
    intros [= <-]. left. eauto.
  - destruct (bool_decide _); simpl; [|discriminate].
    destruct (saving s); simpl; [discriminate|].
    intros [= <-]. right. left. auto.
  - destruct (bool_decide _); simpl; [|discriminate].
    destruct (addingNative s); simpl; [discriminate|].
    intros [= <-]. right. right. auto.
Qed.

Lemma mount_effect_shape (touches : Write -> option bool) :
  (forall o, touches (setChosenTranslation o) = None) ->
  (forall p, touches (setPhase p) = None) ->
  (forall e, touches (setError e) = None) ->
  (forall d, touches (setCardData d) = None) ->
  (forall l, touches (setTranslations l) = None) ->
  untouched touches (mount_effect props)
  /\ avoids is_persist (mount_effect props).
Proof.
  intros. unfold mount_effect.
  destruct (negb (truthy_string (word props))); [by split|].
  by apply loadTranslations_shape.
Qed.

(** While the page lives, at most one Accept run waits, and it waits with
    [saving] raised. *)
Lemma accept_exclusive (w : World Call Write State Origin) :
  reachable apply (handler props) (mounted_page props) w ->
  exclusive is_accept saving touches_saving w.
Proof.
  intros Hreach.
  eapply (exclusive_reachable apply (handler props) is_accept saving
            touches_saving saving_set saving_kept); [| |exact Hreach|].
  - intros s o p Hh HG.
    destruct (handler_cases s o p Hh)
      as [(i & opt & -> & _)|[(-> & Hs & ->)|(-> & _ & _)]]; try discriminate.
    split; [assumption|]. apply handleAccept_guarded.
  - intros s o p Hh HG.
    destruct (handler_cases s o p Hh)
      as [(i & opt & -> & ->)|[(-> & _ & _)|(-> & _ & ->)]]; try discriminate.
    + by apply formatWithTranslation_shape.
    + apply handleAddNativeTranslation_guarded.
  - unfold mounted_page.
    apply (proceed_exclusive_other apply is_accept saving touches_saving
             saving_kept); [reflexivity| |constructor|by left].
    by apply mount_effect_shape.
Qed.

(** The same for "Add Native Translation" and [addingNative]. *)
Lemma addNative_exclusive (w : World Call Write State Origin) :
  reachable apply (handler props) (mounted_page props) w ->
  exclusive is_addNative addingNative touches_addingNative w.
Proof.
  intros Hreach.
  eapply (exclusive_reachable apply (handler props) is_addNative addingNative
            touches_addingNative addingNative_set addingNative_kept);
    [| |exact Hreach|].
  - intros s o p Hh HG.
    destruct (handler_cases s o p Hh)
      as [(i & opt & -> & _)|[(-> & _ & _)|(-> & Hs & ->)]]; try discriminate.
    split; [assumption|]. apply handleAddNativeTranslation_guarded.
  - intros s o p Hh HG.
    destruct (handler_cases s o p Hh)
      as [(i & opt & -> & ->)|[(-> & _ & ->)|(-> & _ & _)]]; try discriminate.
    + by apply formatWithTranslation_shape.
    + apply handleAccept_guarded.
  - unfold mounted_page.
    apply (proceed_exclusive_other apply is_addNative addingNative
             touches_addingNative addingNative_kept);
      [reflexivity| |constructor|by left].
    by apply mount_effect_shape.
Qed.

(** Only an Accept run awaits [createCard] or [acceptCard]. *)
Lemma persist_only_by_accept (w : World Call Write State Origin) :
  reachable apply (handler props) (mounted_page props) w ->
  Forall (fun t : Task Call Write Origin =>
            is_accept (fst t) = false -> avoids is_persist (snd t))
         (pending w).
Proof.
  intros Hreach.
  eapply (inherited_reachable apply (handler props)
            (fun o p => is_accept o = false -> avoids is_persist p));
    [| | |exact Hreach|].
  - intros o x k Hq Ho. exact (Hq Ho).
  - intros o R c k r Hq Ho. exact (proj2 (Hq Ho) r).
  - intros s o p Hh HG.
    destruct (handler_cases s o p Hh)
      as [(i & opt & -> & ->)|[(-> & _ & _)|(-> & _ & ->)]]; try discriminate.
    + by apply (formatWithTranslation_shape touches_saving).
    + apply handleAddNativeTranslation_guarded.
  - unfold mounted_page.
    apply (inherited_proceed apply
             (fun o p => is_accept o = false -> avoids is_persist p)).
    + intros o x k Hq Ho. exact (Hq Ho).
    + intros _. by apply (mount_effect_shape touches_saving).
    + constructor.
Qed.

End TranslatePageFlight.

Section WordSelectPageFacts.

Import Async Api WordSelectPage.

Variable props : Props.

(** One tap on a word with a deck selected, by the answer of the
    duplicate check. *)
Lemma handleWordClick_run (env : Env Call) (s : State) (word : string) :
  deckId props <> "" ->
  run env (handleWordClick props word) s
  = let start :=
      [Wrote (setChecking (Some word)); Wrote (setDuplicate None);
       Called (CheckDuplicate word (deckId props) "")] in
    let go :=
      [Wrote (onWordSelected word); Wrote (navigate "/translate");
       Wrote (setChecking None)] in
    match env _ (CheckDuplicate word (deckId props) "") with
    | Fulfilled verdict =>
        if is_duplicate verdict then
          let found :=
            mkDuplicate word
              (or_else (explanation verdict)
                 "This word may already exist in your deck.")
              (duplicate_of_id verdict) in
          mkOutcome (Fulfilled tt)
            (mkState None (Some found) (selectedWord s) (location s))
            (start ++ [Wrote (setDuplicate (Some found)); Wrote (setChecking None)])
        else
          mkOutcome (Fulfilled tt) (mkState None None word "/translate")
            (start ++ go)
    | Rejected _ =>
        mkOutcome (Fulfilled tt) (mkState None None word "/translate")
          (start ++ go)
    end.
Proof.
  intros Hdeck. apply truthy_string_true in Hdeck.
  unfold handleWordClick. rewrite Hdeck. cbn.
  destruct (env _ _) as [verdict|err]; cbn; [|reflexivity].
  destruct (is_duplicate verdict); reflexivity.
Qed.

(** C4.  With a deck selected, a tap on a word whose duplicate check
    fails ends with the tapped word selected, the router on the translate
    page, no check in progress and no duplicate warning: the only trace of
    the failure is the call itself.  The translate page mounted for that
    word starts in the translating phase without an error and, the word
    not being empty, with its translate call for that word in flight. *)
Theorem failed_duplicate_check_proceeds_to_translating (env : Env Call)
  (s : State) (word : string) (err : Thrown)
  (Hdeck : deckId props <> "")
  (Hfail : env _ (CheckDuplicate word (deckId props) "") = Rejected err) :
  result (run env (handleWordClick props word) s) = Fulfilled tt
  /\ trace (run env (handleWordClick props word) s)
     = [Wrote (setChecking (Some word)); Wrote (setDuplicate None);
        Called (CheckDuplicate word (deckId props) "");
        Wrote (onWordSelected word); Wrote (navigate "/translate");
        Wrote (setChecking None)]
  /\ final (run env (handleWordClick props word) s)
     = mkState None None word "/translate"
  /\ TranslatePage.phase
       (ui (TranslatePage.mounted_page
              (TranslatePage.mkProps
                 (selectedWord (final (run env (handleWordClick props word) s)))
                 (deckId props))))
     = TranslatePage.translating
  /\ TranslatePage.error
       (ui (TranslatePage.mounted_page
              (TranslatePage.mkProps
                 (selectedWord (final (run env (handleWordClick props word) s)))
                 (deckId props))))
     = ""
  /\ (word <> "" ->
      exists k,
        pending (TranslatePage.mounted_page
                   (TranslatePage.mkProps
                      (selectedWord (final (run env (handleWordClick props word) s)))
                      (deckId props)))
        = [(None, Await (Translate word "" "" (deckId props)) k)]).
Proof.
  rewrite (handleWordClick_run env s word Hdeck), Hfail. cbn [result trace final].
  split; [reflexivity|]. split; [reflexivity|]. split; [reflexivity|].
  cbn [selectedWord].
  unfold TranslatePage.mounted_page, TranslatePage.mount_effect. cbn [TranslatePage.word].
  destruct (truthy_string word) eqn:Hw; cbn.
  - split; [reflexivity|]. split; [reflexivity|]. intros _. eauto.
  - split; [reflexivity|]. split; [reflexivity|]. intros Hne.
    apply truthy_string_true in Hne. congruence.
Qed.

Lemma handleWordClick_guarded (word : string) :
  guarded touches_checking false (handleWordClick props word).
Proof.
  unfold handleWordClick. destruct (negb (truthy_string (deckId props)));
    [by walk|].
  cbn. split; [reflexivity|]. intros [verdict|err]; [|by walk].
  cbn. destruct (is_duplicate verdict); by walk.
Qed.

Lemma checking_set (w : Write) (s : State) (b : bool) :
  touches_checking w = Some b -> is_checking (apply w s) = b.
Proof. destruct w; simpl; try congruence. by intros [= <-]. Qed.

Lemma checking_kept (w : Write) (s : State) :
  touches_checking w = None -> is_checking (apply w s) = is_checking s.
Proof. destruct w; simpl; intros H; try discriminate; reflexivity. Qed.

Lemma on_click_cases (s : State) (c : Control) (p : Handler) :
  on_click props s c = Some p ->
  (exists i word, c = WordButton i /\ is_checking s = false
                  /\ p = handleWordClick props word)
  \/ (c = ProceedAnywayButton /\ p = proceedAnyway s)
  \/ (c = ChooseDifferentButton /\ p = set (setDuplicate None)).
Proof.
  unfold on_click. destruct (negb _); [discriminate|].
  destruct (words props) as [|w0 ws]; [discriminate|].
  destruct c as [i| |].
  - unfold is_checking. destruct (bool_decide (is_Some (checking s)));
      [discriminate|].
    destruct ((w0 :: ws) !! i) as [word|]; simpl; [|discriminate].
    intros [= <-]. left. eauto.
  - destruct (bool_decide _); [|discriminate]. intros [= <-]. auto.
  - destruct (bool_decide _); [|discriminate]. intros [= <-]. auto.
Qed.

Lemma proceedAnyway_shape (s : State) :
  untouched touches_checking (proceedAnyway s)
  /\ avoids any_call (proceedAnyway s).
Proof.
  unfold proceedAnyway. destruct (duplicate s); by walk.
Qed.

(** While the page lives, at most one tap waits, and it waits with
    [checking] set. *)
Lemma word_tap_exclusive (selected : string)
  (w : World Call Write State Control) :
  reachable apply (on_click props) (mounted_page selected) w ->
  exclusive is_word_button is_checking touches_checking w.
Proof.
  intros Hreach.
  eapply (exclusive_reachable apply (on_click props) is_word_button is_checking
            touches_checking checking_set checking_kept);
    [| |exact Hreach|].
  - intros s c p Hh HG.
    destruct (on_click_cases s c p Hh)
      as [(i & word & -> & Hc & ->)|[(-> & _)|(-> & _)]]; try discriminate.
    split; [assumption|]. apply handleWordClick_guarded.
  - intros s c p Hh HG.
    destruct (on_click_cases s c p Hh)
      as [(i & word & -> & _ & _)|[(-> & ->)|(-> & ->)]]; try discriminate.
    + apply proceedAnyway_shape.
    + by walk.
  - split; [constructor|by left].
Qed.

(** Only a tap on a word awaits anything. *)
Lemma calls_only_by_word_tap (selected : string)
  (w : World Call Write State Control) :
  reachable apply (on_click props) (mounted_page selected) w ->
  Forall (fun t : Task Call Write Control =>
            is_word_button (fst t) = false -> avoids any_call (snd t))
         (pending w).
Proof.
  intros Hreach.
  eapply (inherited_reachable apply (on_click props)
            (fun o p => is_word_button o = false -> avoids any_call p));
    [| | |exact Hreach|].
  - intros o x k Hq Ho. exact (Hq Ho).
  - intros o R c k r Hq Ho. exact (proj2 (Hq Ho) r).
  - intros s c p Hh HG.
    destruct (on_click_cases s c p Hh)
      as [(i & word & -> & _ & _)|[(-> & ->)|(-> & ->)]]; try discriminate.
    + apply proceedAnyway_shape.
    + by walk.
  - constructor.
Qed.

End WordSelectPageFacts.

(* ===================================================================== *)
(** * One run per disabled control                                        *)
(* ===================================================================== *)

Section FlightClaims.

Import Async Api.

(** C8 (as amended).  Each control that starts calls is disabled while its
    own run is pending, and only that: on the translate page at most one
    Accept run and at most one "Add Native Translation" run wait at any
    time, so at most one [createCard] or [acceptCard] call is in flight and
    never two [createCard] calls; on the word page at most one call is in
    flight.  (Accept and "Add Native Translation" do not shut each other
    out.) *)
Theorem one_run_per_disabled_control
  (tprops : TranslatePage.Props)
  (w : World Call TranslatePage.Write TranslatePage.State TranslatePage.Origin)
  (wprops : WordSelectPage.Props) (selected : string)
  (w' : World Call WordSelectPage.Write WordSelectPage.State
          WordSelectPage.Control)
  (Hw : reachable TranslatePage.apply (TranslatePage.handler tprops)
          (TranslatePage.mounted_page tprops) w)
  (Hw' : reachable WordSelectPage.apply (WordSelectPage.on_click wprops)
           (WordSelectPage.mounted_page selected) w') :
  ((started_by TranslatePage.is_accept w <= 1)%nat
   /\ (started_by TranslatePage.is_addNative w <= 1)%nat
   /\ (in_flight is_createCard w <= 1)%nat
   /\ (in_flight is_persist w <= 1)%nat)
  /\ (in_flight any_call w' <= 1)%nat.
Proof.
  pose proof (exclusive_at_most_one _ _ _ _ (accept_exclusive tprops w Hw))
    as Haccept.
  pose proof (exclusive_at_most_one _ _ _ _ (addNative_exclusive tprops w Hw))
    as Hnative.
  pose proof (persist_only_by_accept tprops w Hw) as Honly.
  pose proof (exclusive_at_most_one _ _ _ _
                (word_tap_exclusive wprops selected w' Hw')) as Htap.
  pose proof (calls_only_by_word_tap wprops selected w' Hw') as Hcalls.
  split; [split; [exact Haccept|split; [exact Hnative|split]]|].
  - etransitivity; [|exact Haccept].
    apply in_flight_le_started.
    eapply Forall_impl; [exact Honly|].
    intros t Ht Ho. eapply avoids_weaken; [|exact (Ht Ho)].
    intros R c. unfold is_persist. by intros [? _]%orb_false_elim.
  - etransitivity; [|exact Haccept]. by apply in_flight_le_started.
  - etransitivity; [|exact Htap]. by apply in_flight_le_started.
Qed.

End FlightClaims.

(* ===================================================================== *)
(** * The scenarios                                                       *)
(* ===================================================================== *)

Section PageExamples.

Import Async Api Samples.

(** C1, as stated, at scenario A with a failing accept call: the retry
    calls [createCard] a second time and accepts the second card. *)
Lemma accept_retry_makes_second_createCard :
  TranslatePage.count is_createCard
    (trace (TranslatePage.click (answering accept_fails)
              (TranslatePage.handleAccept hund) hund_preview)
     ++ trace (TranslatePage.click (answering retry_fine)
                 (TranslatePage.handleAccept hund)
                 (final (TranslatePage.click (answering accept_fails)
                           (TranslatePage.handleAccept hund) hund_preview))))
  = 2%nat
  /\ trace (TranslatePage.click (answering retry_fine)
              (TranslatePage.handleAccept hund)
              (final (TranslatePage.click (answering accept_fails)
                        (TranslatePage.handleAccept hund) hund_preview)))
     = [Wrote (TranslatePage.setSaving true);
        Called (CreateCard "German::Vocabulary" "basic"
                  [("Front", "Hund"); ("Back", "dog")] "Hund");
        Called (AcceptCard "card-2");
        Wrote (TranslatePage.setPhase TranslatePage.saved);
        Wrote (TranslatePage.setSaving false)].
Proof.
  split; reflexivity.
Qed.

Lemma accept_retry_creates_card_again_witness :
  TranslatePage.count is_createCard
    (trace (TranslatePage.click (answering accept_fails)
              (TranslatePage.handleAccept hund) hund_preview)
     ++ trace (TranslatePage.click (answering retry_fine)
                 (TranslatePage.handleAccept hund)
                 (final (TranslatePage.click (answering accept_fails)
                           (TranslatePage.handleAccept hund) hund_preview))))
  = 2%nat.
Proof.
  exact (proj1 (proj2 (proj2 (proj2 (proj2
    (accept_retry_creates_card_again hund (answering accept_fails)
       (answering retry_fine) hund_preview hund_card (mkCreated "card-1")
       (ErrorInstance "Service Unavailable") eq_refl eq_refl eq_refl)))))).
Defined.

Lemma single_candidate_skips_choosing_witness :
  TranslatePage.phases
    (trace (TranslatePage.run (answering all_fine)
              (TranslatePage.loadTranslations hund) TranslatePage.initial))
  = [TranslatePage.translating; TranslatePage.formatting; TranslatePage.preview]
  /\ TranslatePage.phases
       (trace (TranslatePage.run (answering two_candidates)
                 (TranslatePage.loadTranslations hund) TranslatePage.initial))
     = [TranslatePage.translating; TranslatePage.choosing].
Proof.
  split.
  - exact (proj1 (proj2 (proj2 (proj2
      (proj1 (single_candidate_skips_choosing hund (answering all_fine)
                TranslatePage.initial [dog] eq_refl) dog eq_refl)))
      hund_card eq_refl)).
  - exact (proj1 (proj2
      (single_candidate_skips_choosing hund (answering two_candidates)
         TranslatePage.initial [dog; hound] eq_refl)
      ltac:(simpl; lia))).
Defined.

(** C5, as stated, at scenario C: the run ends without an error to
    show. *)
Lemma zero_candidates_surface_no_error :
  result (TranslatePage.run (answering zero_candidates)
            (TranslatePage.loadTranslations hund) TranslatePage.initial)
  = Fulfilled tt
  /\ TranslatePage.error
       (final (TranslatePage.run (answering zero_candidates)
                 (TranslatePage.loadTranslations hund) TranslatePage.initial))
     = ""
  /\ TranslatePage.error_banner hund
       (final (TranslatePage.run (answering zero_candidates)
                 (TranslatePage.loadTranslations hund) TranslatePage.initial))
     = None.
Proof.
  repeat split.
Qed.

Lemma zero_candidates_enter_choosing_without_error_witness :
  TranslatePage.phase
    (final (TranslatePage.run (answering zero_candidates)
              (TranslatePage.loadTranslations hund) TranslatePage.initial))
  = TranslatePage.choosing.
Proof.
  exact (proj1 (proj2 (proj2
    (zero_candidates_enter_choosing_without_error hund
       (answering zero_candidates) TranslatePage.initial eq_refl)))).
Defined.

Lemma add_native_translation_replaces_draft_witness :
  TranslatePage.cardData
    (TranslatePage.clicks (TranslatePage.handleAddNativeTranslation hund)
       ([answering all_fine] ++ [answering retry_fine]) hund_preview)
  = Some hund_card_native.
Proof.
  assert (Hformats : TranslatePage.formats_native hund dog
                       (answering retry_fine) hund_card_native).
  { exists learner, "Polish". repeat split. discriminate. }
  exact (proj1
    (add_native_translation_replaces_draft hund [answering all_fine]
       (answering retry_fine) hund_preview dog hund_card_native eq_refl
       Hformats)).
Defined.

Lemma failed_duplicate_check_proceeds_to_translating_witness :
  final (WordSelectPage.run (answering duplicate_check_down)
           (WordSelectPage.handleWordClick photo_words "Hund")
           (WordSelectPage.initial ""))
  = WordSelectPage.mkState None None "Hund" "/translate".
Proof.
  exact (proj1 (proj2 (proj2
    (failed_duplicate_check_proceeds_to_translating photo_words
       (answering duplicate_check_down) (WordSelectPage.initial "") "Hund"
       (ErrorInstance "Service Unavailable") ltac:(discriminate) eq_refl)))).
Defined.

(** C8, as stated, at scenario A: with the profile call of "Add Native
    Translation" pending the Accept button is enabled, and after the click
    two calls are in flight. *)
Lemma accept_and_add_native_overlap :
  reachable TranslatePage.apply (TranslatePage.handler hund)
    (TranslatePage.mounted_page hund) hund_busy
  /\ in_flight any_call hund_busy = 2%nat
  /\ in_flight is_createCard hund_busy = 1%nat.
Proof.
  split; [|split; reflexivity].
  unfold hund_busy.
  do 2 apply press_reachable. do 2 apply settle_reachable. constructor.
Qed.

Lemma one_run_per_disabled_control_witness :
  (in_flight is_createCard hund_busy <= 1)%nat
  /\ (in_flight any_call hund_tapped <= 1)%nat.
Proof.
  assert (H1 : reachable TranslatePage.apply (TranslatePage.handler hund)
                 (TranslatePage.mounted_page hund) hund_busy).
  { unfold hund_busy.
    do 2 apply press_reachable. do 2 apply settle_reachable. constructor. }
  assert (H2 : reachable WordSelectPage.apply
                 (WordSelectPage.on_click photo_words)
                 (WordSelectPage.mounted_page "") hund_tapped).
  { unfold hund_tapped. apply press_reachable. constructor. }
  pose proof (one_run_per_disabled_control hund hund_busy photo_words ""
                hund_tapped H1 H2) as H.
  split; [exact (proj1 (proj2 (proj2 (proj1 H))))|exact (proj2 H)].
Defined.

End PageExamples.

(* ===================================================================== *)
(** * More on the gateway and the session state                           *)
(* ===================================================================== *)

Section GatewayMore.

Import Gateway App.

Context {runtime : Runtime}.

Lemma request_headers_Authorization (options : RequestInit) (w : Browser) :
  request_headers options w !! "Authorization"
  = if truthy_opt (authToken w)
    then (fun t => "Bearer " +:+ t) <$> authToken w
    else init_headers options !! "Authorization".
Proof.
  unfold request_headers.
  assert (Hct : forall h : gmap string string,
            (if is_FormData (init_body options) then h
             else <["Content-Type" := "application/json"]> h) !! "Authorization"
            = h !! "Authorization").
  { intros h. destruct (is_FormData _); [reflexivity|].
    by rewrite lookup_insert_ne. }
  rewrite Hct. destruct (authToken w) as [t|]; simpl; [|reflexivity].
  destruct (truthy_string t); [|reflexivity]. apply lookup_insert_eq.
Qed.

(** X1.  The fetch of a request carries the credential of the moment:
    right after [setToken] with a non-empty token its [Authorization]
    header is ["Bearer " + token], whatever header the caller passed, and
    that fetch is the last one issued; right after [setToken(null)] the
    header is the caller's own, if any. *)
Theorem request_carries_current_token (network : Network) (path : string)
  (options : RequestInit) (w : Browser) (token : string)
  (Htoken : token <> "") :
  req_headers (fetch_of path options (setToken (Some token) w)) !! "Authorization"
    = Some ("Bearer " +:+ token)
  /\ last (fetched (snd (request network path options (setToken (Some token) w))))
     = Some (fetch_of path options (setToken (Some token) w))
  /\ req_headers (fetch_of path options (setToken None w)) !! "Authorization"
     = init_headers options !! "Authorization".
Proof.
  apply truthy_string_true in Htoken.
  split; [|split].
  - unfold fetch_of. simpl. rewrite request_headers_Authorization.
    rewrite setToken_authToken. simpl. by rewrite Htoken.
  - rewrite request_fetched. apply last_snoc.
  - unfold fetch_of. simpl. rewrite request_headers_Authorization.
    by rewrite setToken_authToken.
Qed.

(** X2.  Unless the answer is a 401 to a path outside ["/auth/login"],
    [request] leaves the session alone: the credential, the store and the
    location are the same after the call, whether the fetch failed, or was
    answered 2xx, or with any other error status. *)
Theorem request_keeps_session_unless_401 (network : Network) (path : string)
  (options : RequestInit) (w : Browser)
  (Hnot401 : forall res : Response,
     network (fetched w ++ [fetch_of path options w]) = Fulfilled res ->
     status res = 401 -> String.prefix "/auth/login" path = true) :
  authToken (snd (request network path options w)) = authToken w
  /\ localStorage (snd (request network path options w)) = localStorage w
  /\ href (snd (request network path options w)) = href w.
Proof.
  unfold request. simpl.
  destruct (network _) as [res|e] eqn:Hnet; [|by repeat split].
  specialize (Hnot401 res eq_refl).
  destruct (negb (ok res)); simpl.
  - assert (Hgate : (status res =? 401)
                    && negb (String.prefix "/auth/login" path) = false).
    { destruct (Z.eqb_spec (status res) 401) as [H401|]; [|reflexivity].
      by rewrite (Hnot401 H401). }
    rewrite Hgate.
    destruct (json res) as [v|e]; simpl; [destruct (detail_of v)|];
      by repeat split.
  - destruct (status res =? 204); by repeat split.
Qed.

(** X3.  A 401 answer to a path outside ["/auth/login"] signs the user
    out everywhere: the call throws, the credential is cleared in memory
    and in the store while every other stored key stays, the location is
    the login page, the route guard redirects, and a page load from that
    store starts without a credential. *)
Theorem unauthorized_answer_forces_login (network : Network) (path : string)
  (options : RequestInit) (w : Browser) (res : Response) (location : string)
  (Hnet : network (fetched w ++ [fetch_of path options w]) = Fulfilled res)
  (H401 : status res = 401)
  (Hpath : String.prefix "/auth/login" path = false) :
  (exists e, fst (request network path options w) = Rejected e)
  /\ getToken (snd (request network path options w)) = None
  /\ localStorage (snd (request network path options w)) !! "token" = None
  /\ (forall k : string, k <> "token" ->
        localStorage (snd (request network path options w)) !! k
        = localStorage w !! k)
  /\ href (snd (request network path options w)) = "/login"
  /\ ProtectedRoute (snd (request network path options w)) = NavigateTo "/login"
  /\ getToken (load_module
                 (localStorage (snd (request network path options w))) location)
     = None.
Proof.
  assert (Hok : ok res = false) by (unfold ok; rewrite H401; reflexivity).
  assert (Hw : snd (request network path options w)
               = with_href "/login"
                   (setToken None
                      (with_fetched (fetched w ++ [fetch_of path options w]) w))).
  { unfold request. simpl. rewrite Hnet, Hok, H401, Hpath. simpl.
    destruct (json res) as [v|e]; simpl; [destruct (detail_of v)|];
      reflexivity. }
  split.
  { rewrite (request_not_ok _ _ _ _ _ Hnet Hok).
    destruct (json res) as [v|e]; [destruct (detail_of v)|]; eauto. }
  rewrite Hw. unfold ProtectedRoute, getToken. simpl.
  repeat split; try (by rewrite lookup_delete_eq).
  intros k Hk. by rewrite lookup_delete_ne.
Qed.

(** X4.  [api.acceptCard] resolves on a 204 answer although there is no
    body to parse, and nothing of the session changes; a 200 answer whose
    body is not JSON makes the same call reject with the parse error. *)
Theorem acceptCard_resolves_on_no_content (network : Network) (cardId : string)
  (w : Browser) (res : Response)
  (Hnet : network (fetched w ++ [fetch_of ("/cards/" +:+ cardId +:+ "/accept")
                                   (mkInit (Some "POST") ∅ BodyAbsent) w])
          = Fulfilled res) :
  (status res = 204 ->
   fst (api_acceptCard network cardId w) = Fulfilled VUndefined
   /\ authToken (snd (api_acceptCard network cardId w)) = authToken w
   /\ localStorage (snd (api_acceptCard network cardId w)) = localStorage w)
  /\ (status res = 200 -> forall e, json res = Rejected e ->
      fst (api_acceptCard network cardId w) = Rejected e).
Proof.
  unfold api_acceptCard. split.
  - intros H204.
    assert (Hok : ok res = true) by (unfold ok; rewrite H204; reflexivity).
    split.
    + rewrite (request_ok _ _ _ _ _ Hnet Hok), H204. reflexivity.
    + unfold request. simpl. rewrite Hnet, Hok, H204. by split.
  - intros H200 e Hjson.
    assert (Hok : ok res = true) by (unfold ok; rewrite H200; reflexivity).
    rewrite (request_ok _ _ _ _ _ Hnet Hok), H200. exact Hjson.
Qed.

(** X5.  For a non-2xx answer whose body is a JSON object, the thrown
    error says what the server said: a non-empty [detail] string is the
    message, verbatim; a [detail] that is the empty string, [null] or
    [false] gives way to the status text. *)
Theorem request_surfaces_detail (network : Network) (path : string)
  (options : RequestInit) (w : Browser) (res : Response)
  (props : list (string * Value))
  (Hnet : network (fetched w ++ [fetch_of path options w]) = Fulfilled res)
  (Hfail : ok res = false)
  (Hjson : json res = Fulfilled (VObj props)) :
  (forall detail : string,
     lookup_prop "detail" props = Some (VStr detail) -> detail <> "" ->
     fst (request network path options w) = Rejected (ErrorInstance detail))
  /\ (forall d : Value,
        lookup_prop "detail" props = Some d ->
        d = VStr "" \/ d = VNull \/ d = VBool false ->
        fst (request network path options w)
        = Rejected (ErrorInstance (statusText res))).
Proof.
  rewrite (request_not_ok _ _ _ _ _ Hnet Hfail), Hjson. simpl. split.
  - intros detail Hd Hne. rewrite Hd. unfold js_or. simpl.
    apply truthy_string_true in Hne. by rewrite Hne.
  - intros d Hd [->|[->| ->]]; rewrite Hd; reflexivity.
Qed.

(** X6.  A JSON call always goes out as [application/json], even when the
    caller passed another content type; the photo upload of [api.ocr] goes
    out without a [Content-Type] of the client's making (the browser sets
    the multipart one) and with the file as its ["file"] part. *)
Theorem content_type_follows_body (path : string) (options : RequestInit)
  (file : string) (w : Browser) :
  (is_FormData (init_body options) = false ->
   req_headers (fetch_of path options w) !! "Content-Type"
   = Some "application/json")
  /\ req_headers (fetch_of "/ocr" (ocr_options file) w) !! "Content-Type" = None
  /\ req_body (fetch_of "/ocr" (ocr_options file) w) = BodyForm [("file", file)]
  /\ url (fetch_of "/ocr" (ocr_options file) w) = "/api/ocr".
Proof.
  split; [|split; [|split; reflexivity]].
  - intros Hbody. unfold fetch_of, request_headers. simpl. rewrite Hbody.
    apply lookup_insert_eq.
  - unfold fetch_of, request_headers. simpl.
    destruct (authToken w) as [t|]; [|reflexivity].
    destruct (truthy_string t); [|reflexivity].
    by rewrite lookup_insert_ne.
Qed.

(** X7.  Logout signs the user out and keeps the deck: afterwards there
    is no credential in memory or in the store, the guard redirects to the
    login page, and a page load from the store starts signed out with the
    deck selection it had. *)
Theorem logout_signs_out_and_keeps_deck (w : Browser) (location : string) :
  getToken (logout w) = None
  /\ localStorage (logout w) !! "token" = None
  /\ href (logout w) = "/login"
  /\ ProtectedRoute (logout w) = NavigateTo "/login"
  /\ getToken (load_module (localStorage (logout w)) location) = None
  /\ initial_selectedDeckId (localStorage (logout w))
     = initial_selectedDeckId (localStorage w).
Proof.
  unfold logout, ProtectedRoute, getToken, initial_selectedDeckId. simpl.
  rewrite lookup_delete_eq. repeat split.
  by rewrite lookup_delete_ne.
Qed.

(** X8.  The selected deck and the credential do not disturb each other
    in the store: a deck chosen in the settings is the deck a later page
    load starts with, whatever [setToken] calls came in between, and
    choosing a deck leaves the stored credential as it was. *)
Theorem deck_selection_and_credential_are_independent (w : Browser)
  (id : string) (tokens : list (option string)) (location : string) :
  initial_selectedDeckId
    (localStorage
       (foldr setToken
          (with_localStorage (snd (setSelectedDeckId id (localStorage w))) w)
          tokens))
    = id
  /\ getToken (load_module (snd (setSelectedDeckId id (localStorage w))) location)
     = localStorage w !! "token".
Proof.
  split.
  - assert (Hkeep : forall w' : Browser,
              localStorage (foldr setToken w' tokens) !! "selectedDeckId"
              = localStorage w' !! "selectedDeckId").
    { intros w'. induction tokens as [|t ts IH]; simpl; [reflexivity|].
      by rewrite setToken_other_keys. }
    unfold initial_selectedDeckId. rewrite Hkeep. simpl.
    rewrite lookup_insert_eq.
    destruct (truthy_string id) eqn:E; [reflexivity|].
    symmetry. by apply truthy_string_false.
  - unfold getToken, load_module, setSelectedDeckId. simpl.
    by rewrite lookup_insert_ne.
Qed.

End GatewayMore.

(* ===================================================================== *)
(** * More on handlers, run alone and interleaved                         *)
(* ===================================================================== *)

Section MachineMore.

Import Async.

Context {Call : Type -> Type} {Write State Origin : Type}.
Variable apply : Write -> State -> State.
Variable handler : State -> Origin -> option (Prog Call Write unit).

Local Abbreviation World := (Async.World Call Write State Origin).
Local Abbreviation Task := (Async.Task Call Write Origin).
Local Abbreviation step := (Async.step apply handler).
Local Abbreviation reachable := (Async.reachable apply handler).
Local Abbreviation proceed := (Async.proceed apply).

Lemma run_never_throws (env : Env Call) (p : Prog Call Write unit) (s : State) :
  never_throws p -> result (run apply env p s) = Fulfilled tt.
Proof.
  revert s. induction p as [[]|e|w k IH|R c k IH]; intros s Hp; simpl in *;
    auto; contradiction.
Qed.

Lemma reachable_trans (w0 w1 w2 : World) :
  reachable w0 w1 -> reachable w1 w2 -> reachable w0 w2.
Proof.
  intros H01 H12. induction H12 as [|w w' _ IH Hstep]; [assumption|].
  eapply reachable_step; eauto.
Qed.

(** Whatever waits, waits at an await. *)
Lemma pending_are_suspended (w0 w : World) :
  reachable w0 w ->
  Forall (fun t : Task => suspended (snd t) = true) (pending w0) ->
  Forall (fun t : Task => suspended (snd t) = true) (pending w).
Proof.
  assert (Hproceed : forall o p others w1,
            Forall (fun t : Task => suspended (snd t) = true) others ->
            Forall (fun t : Task => suspended (snd t) = true)
                   (pending (proceed o p others w1))).
  { intros o p others w1 Hothers. unfold Async.proceed, keep.
    destruct (mounted w1).
    - destruct (advance apply p (ui w1)) as [p' s']. simpl.
      destruct (suspended p') eqn:Es; [|assumption].
      apply Forall_app. split; [assumption|]. by repeat constructor.
    - simpl. destruct (suspended (skip_writes p)) eqn:Es; [|assumption].
      apply Forall_app. split; [assumption|]. by repeat constructor. }
  induction 1 as [|w w' _ IH Hstep]; intros H0; [assumption|].
  specialize (IH H0).
  destruct Hstep as [w o p Hm Hh|w n o R c k r Hn|w Hm]; [| |assumption].
  - by apply Hproceed.
  - apply Hproceed. by apply Forall_delete.
Qed.

(** Every waiting run awaits some call. *)
Lemma started_le_in_flight (G : Origin -> bool) (w : World) :
  Forall (fun t : Task => suspended (snd t) = true) (pending w) ->
  (started_by G w <= in_flight (fun _ _ => true) w)%nat.
Proof.
  unfold started_by, in_flight, count_started.
  induction (pending w) as [|[o p] l IH]; intros Hall; simpl; [lia|].
  inversion Hall as [|? ? Hp Hl]; subst. specialize (IH Hl). simpl in Hp.
  destruct p; try discriminate. destruct (G o); simpl; lia.
Qed.

(** **** A flag lowered at the end of every run that raised it *)

Section Lowered.

Variable flag : State -> bool.
Variable touches : Write -> option bool.

Hypothesis flag_set :
  forall w s b, touches w = Some b -> flag (apply w s) = b.
Hypothesis flag_kept :
  forall w s, touches w = None -> flag (apply w s) = flag s.

Lemma run_lowered (env : Env Call) (p : Prog Call Write unit) (s : State) :
  lowered touches (flag s) p -> flag (final (run apply env p s)) = false.
Proof.
  revert s. induction p as [a|e|w k IH|R c k IH]; intros s Hp; simpl in *;
    auto.
  apply IH. destruct (touches w) as [b|] eqn:E; simpl in Hp.
  - by rewrite (flag_set _ _ _ E).
  - by rewrite (flag_kept _ _ E).
Qed.

Lemma advance_lowered (p : Prog Call Write unit) (s : State) :
  lowered touches (flag s) p ->
  lowered touches (flag (snd (advance apply p s))) (fst (advance apply p s)).
Proof.
  revert s. induction p as [a|e|w k IH|R c k IH]; intros s Hp; simpl in *;
    auto.
  apply IH. destruct (touches w) as [b|] eqn:E; simpl in Hp.
  - by rewrite (flag_set _ _ _ E).
  - by rewrite (flag_kept _ _ E).
Qed.

Lemma advance_finished_lowered (p : Prog Call Write unit) (s : State) :
  lowered touches (flag s) p ->
  suspended (fst (advance apply p s)) = false ->
  flag (snd (advance apply p s)) = false.
Proof.
  revert s. induction p as [a|e|w k IH|R c k IH]; intros s Hp Hs; simpl in *;
    auto; try discriminate.
  apply IH; [|assumption]. destruct (touches w) as [b|] eqn:E; simpl in Hp.
  - by rewrite (flag_set _ _ _ E).
  - by rewrite (flag_kept _ _ E).
Qed.

Variable G : Origin -> bool.

Hypothesis G_enabled :
  forall s o p, handler s o = Some p -> G o = true ->
    flag s = false /\ guarded touches false p /\ lowered touches false p.
Hypothesis others_untouched :
  forall s o p, handler s o = Some p -> G o = false -> untouched touches p.

Local Abbreviation exclusive :=
  (@Async.exclusive Call Write State Origin G flag touches).
Local Abbreviation count_G := (@Async.count_started Call Write Origin G).

Local Abbreviation mirrored :=
  (@Async.mirrored Call Write State Origin G flag touches).

Lemma proceed_mirrored_G (o : Origin) (p : Prog Call Write unit)
  (others : list Task) (w : World) :
  G o = true ->
  guarded touches (flag (ui w)) p ->
  lowered touches (flag (ui w)) p ->
  Forall (fun t : Task => G (fst t) = true -> lowered touches true (snd t))
         others ->
  mirrored (proceed o p others w).
Proof.
  intros HG Hg Hl Hothers. unfold Async.mirrored, Async.proceed, keep, started_by.
  destruct (mounted w); [|discriminate]. intros _.
  pose proof (advance_guarded apply flag touches flag_set flag_kept p (ui w) Hg)
    as Hadv.
  pose proof (advance_lowered p (ui w) Hl) as Hlow.
  pose proof (advance_finished_lowered p (ui w) Hl) as Hfin.
  destruct (advance apply p (ui w)) as [p' s']. simpl in *.
  destruct (suspended p') eqn:Es; simpl.
  - destruct (Hadv eq_refl) as [_ Hf]. rewrite Hf in Hlow. split.
    + apply Forall_app. split; [assumption|]. by repeat constructor.
    + intros Hc. pose proof (count_G_snoc G others (o, p')) as Hsnoc.
      simpl in Hsnoc. rewrite HG in Hsnoc. unfold Async.Task in *. lia.
  - split; [assumption|]. intros _. by apply Hfin.
Qed.

Lemma proceed_mirrored_other (o : Origin) (p : Prog Call Write unit)
  (others : list Task) (w : World) :
  G o = false ->
  untouched touches p ->
  Forall (fun t : Task => G (fst t) = true -> lowered touches true (snd t))
         others ->
  (count_G others = 0%nat -> flag (ui w) = false) ->
  mirrored (proceed o p others w).
Proof.
  intros HG Hu Hothers Hflag.
  unfold Async.mirrored, Async.proceed, keep, started_by.
  destruct (mounted w); [|discriminate]. intros _.
  pose proof (advance_untouched apply flag touches flag_kept p (ui w) Hu)
    as [_ Hf].
  destruct (advance apply p (ui w)) as [p' s']. simpl in *.
  destruct (suspended p') eqn:Es; simpl.
  - split.
    + apply Forall_app. split; [assumption|].
      constructor; [|constructor]. simpl. congruence.
    + intros Hc. pose proof (count_G_snoc G others (o, p')) as Hsnoc.
      simpl in Hsnoc. rewrite HG in Hsnoc. unfold Async.Task in *.
      rewrite Hf. apply Hflag. lia.
  - split; [assumption|]. by rewrite Hf.
Qed.

Lemma mirrored_step (w w' : World) :
  step w w' -> exclusive w -> mirrored w -> mirrored w'.
Proof.
  intros Hstep [Hall Hcount] Hm. unfold started_by in Hcount.
  destruct Hstep as [w o p Hmounted Hh|w n o R c k r Hn|w Hmounted];
    [| |unfold Async.mirrored; simpl; discriminate].
  - destruct (Hm Hmounted) as [Hlow Hdown].
    destruct (G o) eqn:HG.
    + destruct (G_enabled _ _ _ Hh HG) as (Hf & Hg & Hl).
      apply proceed_mirrored_G; try assumption; by rewrite Hf.
    + apply proceed_mirrored_other; try assumption.
      eapply others_untouched; eauto.
  - destruct (mounted w) eqn:Hmounted.
    2:{ unfold Async.mirrored, Async.proceed. rewrite Hmounted. simpl.
        discriminate. }
    destruct (Hm Hmounted) as [Hlow Hdown].
    pose proof (proj1 (Forall_lookup _ _) Hall n _ Hn) as Hok.
    pose proof (proj1 (Forall_lookup _ _) Hlow n _ Hn) as Hl.
    pose proof (count_G_delete G _ _ _ Hn) as Hdel.
    assert (Hothers :
      Forall (fun t : Task => G (fst t) = true -> lowered touches true (snd t))
             (delete n (pending w))) by (by apply Forall_delete).
    unfold Async.task_ok in Hok. simpl in *.
    destruct (G o) eqn:HG; try rewrite HG in Hdel; try rewrite HG in Hok.
    + assert (Hf : flag (ui w) = true).
      { destruct Hcount as [Hz|[_ Hf]]; [lia|exact Hf]. }
      destruct Hok as [_ Hk]. specialize (Hl eq_refl r). simpl in Hl.
      apply proceed_mirrored_G; try assumption; rewrite Hf; [apply Hk|apply Hl].
    + apply proceed_mirrored_other; try assumption.
      * apply Hok.
      * intros Hz. apply Hdown. unfold started_by. lia.
Qed.

Lemma mirrored_reachable (w0 w : World) :
  reachable w0 w -> exclusive w0 -> mirrored w0 ->
  exclusive w /\ mirrored w.
Proof.
  induction 1 as [|w w' _ IH Hstep]; intros He Hm; [by split|].
  destruct (IH He Hm) as [He' Hm']. split.
  - eapply (exclusive_step apply handler G flag touches flag_set flag_kept);
      eauto.
    intros s o p Hh HG. destruct (G_enabled s o p Hh HG) as (? & ? & ?). auto.
  - eapply mirrored_step; eauto.
Qed.

Lemma flag_mirrors_pending (w : World) :
  exclusive w -> mirrored w -> mounted w = true ->
  (flag (ui w) = true <-> started_by G w = 1%nat).
Proof.
  intros [_ Hcount] Hm Hmounted. destruct (Hm Hmounted) as [_ Hdown]. split.
  - intros Hf. destruct Hcount as [Hz|[Hone _]]; [|exact Hone].
    rewrite (Hdown Hz) in Hf. discriminate.
  - intros Hone. destruct Hcount as [Hz|[_ Hf]]; [lia|exact Hf].
Qed.

End Lowered.

(** **** What no write of any handler undoes *)

Section Stable.

Variable W : Write -> Prop.
Variable S : State -> Prop.

Hypothesis W_keeps : forall w s, W w -> S s -> S (apply w s).
Hypothesis handlers_W : forall s o p, handler s o = Some p -> writes_all W p.

Lemma advance_stable (p : Prog Call Write unit) (s : State) :
  writes_all W p -> S s -> S (snd (advance apply p s)).
Proof.
  revert s. induction p as [a|e|w k IH|R c k IH]; intros s Hp Hs; simpl in *;
    auto.
  destruct Hp as [Hw Hk]. auto.
Qed.

Lemma stable_step (w w' : World) :
  step w w' ->
  Forall (fun t : Task => writes_all W (snd t)) (pending w) ->
  S (ui w) -> S (ui w').
Proof.
  intros Hstep Hall Hs.
  destruct Hstep as [w o p Hm Hh|w n o R c k r Hn|w Hm]; [| |assumption].
  - unfold Async.proceed. rewrite Hm.
    pose proof (advance_stable p (ui w) (handlers_W _ _ _ Hh) Hs) as H.
    by destruct (advance apply p (ui w)).
  - pose proof (proj1 (Forall_lookup _ _) Hall n _ Hn r) as Hk. simpl in Hk.
    unfold Async.proceed. destruct (mounted w); [|assumption].
    pose proof (advance_stable (k r) (ui w) Hk Hs) as H.
    by destruct (advance apply (k r) (ui w)).
Qed.

Lemma stable_reachable (w0 w : World) :
  reachable w0 w ->
  Forall (fun t : Task => writes_all W (snd t)) (pending w0) ->
  S (ui w0) -> S (ui w).
Proof.
  induction 1 as [|w w' Hreach IH Hstep]; intros Hall Hs; [assumption|].
  eapply stable_step; eauto.
  apply (inherited_reachable apply handler (fun _ p => writes_all W p))
    with (w0 := w0);
    [intros o x k [_ Hk]; exact Hk
    |intros o R c k r Hk; exact (Hk r)
    |exact handlers_W
    |assumption
    |assumption].
Qed.

End Stable.

End MachineMore.

(* ===================================================================== *)
(** * More on the translate page                                          *)
(* ===================================================================== *)

Section TranslatePageMore.

Import Async Api TranslatePage.

Variable props : Props.

Lemma translate_handlers_never_throw (s : State) (opt : TranslationOption)
  (nativeLanguage : option string) :
  never_throws (formatWithTranslation props opt nativeLanguage)
  /\ never_throws (loadTranslations props)
  /\ never_throws (mount_effect props)
  /\ never_throws (handleAccept props s)
  /\ never_throws (handleAddNativeTranslation props s).
Proof.
  assert (Hload : never_throws (loadTranslations props)).
  { unfold loadTranslations. cbn. intros [result|err]; cbn; [|exact I].
    destruct (translations result) as [|only [|]]; by walk. }
  split; [by walk|]. split; [exact Hload|]. split; [|split].
  - unfold mount_effect. by destruct (negb _).
  - unfold handleAccept. destruct (cardData s); by walk.
  - unfold handleAddNativeTranslation. destruct (chosenTranslation s); [|by walk].
    cbn. intros [user|err]; [|by walk].
    cbn. destruct (negb (truthy_opt (native_language user))); by walk.
Qed.

Lemma handleAccept_lowered (s : State) (data : CardData) :
  cardData s = Some data ->
  lowered touches_saving (saving s) (handleAccept props s).
Proof.
  intros Hdata. unfold handleAccept. rewrite Hdata. by walk.
Qed.

Lemma handleAddNativeTranslation_lowered (s : State) (chosen : TranslationOption) :
  chosenTranslation s = Some chosen ->
  lowered touches_addingNative (addingNative s)
    (handleAddNativeTranslation props s).
Proof.
  intros Hch. unfold handleAddNativeTranslation. rewrite Hch.
  cbn. intros [user|err]; [|by walk].
  cbn. destruct (negb (truthy_opt (native_language user))); by walk.
Qed.

(** X9.  No handler of the translate page lets a failure escape: whatever
    the collaborators answer, the mount effect, the loading of the
    translations, a formatting, an Accept click and an "Add Native
    Translation" click all end by returning, and the two clicks end with
    their busy flag lowered whenever they had something to work on. *)
Theorem translate_page_handlers_never_reject (env : Env Call) (s : State)
  (opt : TranslationOption) (nativeLanguage : option string) :
  result (run env (mount_effect props) s) = Fulfilled tt
  /\ result (run env (loadTranslations props) s) = Fulfilled tt
  /\ result (run env (formatWithTranslation props opt nativeLanguage) s)
     = Fulfilled tt
  /\ result (click env (handleAccept props) s) = Fulfilled tt
  /\ result (click env (handleAddNativeTranslation props) s) = Fulfilled tt
  /\ saving (final (click env (handleAccept props) s))
     = match cardData s with Some _ => false | None => saving s end
  /\ addingNative (final (click env (handleAddNativeTranslation props) s))
     = match chosenTranslation s with Some _ => false | None => addingNative s end.
Proof.
  destruct (translate_handlers_never_throw s opt nativeLanguage)
    as (Hf & Hl & Hm & Ha & Hn).
  repeat (split; [by apply run_never_throws|]).
  split.
  - destruct (cardData s) as [data|] eqn:Hdata.
    + apply (run_lowered apply saving touches_saving saving_set saving_kept).
      by apply (handleAccept_lowered s data).
    + unfold Async.click, handleAccept. by rewrite Hdata.
  - destruct (chosenTranslation s) as [chosen|] eqn:Hch.
    + apply (run_lowered apply addingNative touches_addingNative
               addingNative_set addingNative_kept).
      by apply (handleAddNativeTranslation_lowered s chosen).
    + unfold Async.click, handleAddNativeTranslation. by rewrite Hch.
Qed.

(** X10.  An Accept click whose two calls succeed creates the card from
    the draft, accepts the card just created, and ends in the saved phase:
    from there the page offers no control and no error banner, only the
    two ways forward. *)
Theorem accept_saves_and_ends_the_session (env : Env Call) (s : State)
  (data : CardData) (created : CreatedCard)
  (Hdata : cardData s = Some data)
  (Hcreate : env _ (create_for props data) = Fulfilled created)
  (Haccept : env _ (AcceptCard (card_id created)) = Fulfilled tt) :
  trace (click env (handleAccept props) s)
    = [Wrote (setSaving true); Called (create_for props data);
       Called (AcceptCard (card_id created)); Wrote (setPhase saved);
       Wrote (setSaving false)]
  /\ final (click env (handleAccept props) s)
     = mkState saved (error s) (translations_ s) (chosenTranslation s)
               (Some data) false (addingNative s)
  /\ (forall c : Control,
        on_click props (final (click env (handleAccept props) s)) c = None)
  /\ error_banner props (final (click env (handleAccept props) s)) = None
  /\ (word props <> "" ->
      nav_buttons props (final (click env (handleAccept props) s))
      = ["/words"; "/"]).
Proof.
  rewrite (handleAccept_run props env s data Hdata), Hcreate, Haccept.
  cbn [final trace].
  split; [reflexivity|]. split; [reflexivity|]. split; [|split].
  - intros c. unfold on_click. cbn. destruct (negb _); [reflexivity|].
    by destruct c.
  - unfold error_banner. cbn. by destruct (negb _).
  - intros Hword. unfold nav_buttons. cbn.
    apply truthy_string_true in Hword. by rewrite Hword.
Qed.

(** X11.  [acceptCard] is never called for a card that was not created:
    an Accept click without a draft makes no call and changes nothing, and
    one whose [createCard] fails stops there, showing the failure and
    keeping the phase and the draft. *)
Theorem accept_stops_when_card_is_not_created (env : Env Call) (s : State) :
  (cardData s = None ->
   trace (click env (handleAccept props) s) = []
   /\ final (click env (handleAccept props) s) = s)
  /\ (forall (data : CardData) (err : Thrown),
        cardData s = Some data ->
        env _ (create_for props data) = Rejected err ->
        count is_acceptCard (trace (click env (handleAccept props) s)) = 0%nat
        /\ count is_createCard (trace (click env (handleAccept props) s)) = 1%nat
        /\ final (click env (handleAccept props) s)
           = mkState (phase s) (message_or err "Failed to save card")
                     (translations_ s) (chosenTranslation s) (Some data) false
                     (addingNative s)).
Proof.
  split.
  - intros Hdata. unfold Async.click, handleAccept. rewrite Hdata. by split.
  - intros data err Hdata Hcreate.
    rewrite (handleAccept_run props env s data Hdata), Hcreate. by repeat split.
Qed.

(** X12.  "Add Native Translation" is refused when the profile has no
    native language (none, or the empty string): the profile is the only
    call, nothing is formatted, the phase, the draft and the chosen
    candidate stay, and the instruction to set the language is the error
    shown. *)
Theorem add_native_translation_needs_native_language (env : Env Call)
  (s : State) (chosen : TranslationOption) (user : User)
  (Hchosen : chosenTranslation s = Some chosen)
  (Hme : env _ GetMe = Fulfilled user)
  (Hnone : truthy_opt (native_language user) = false) :
  trace (click env (handleAddNativeTranslation props) s)
    = [Wrote (setAddingNative true); Called GetMe;
       Wrote (setError "Please set your native language in Settings first.");
       Wrote (setAddingNative false)]
  /\ final (click env (handleAddNativeTranslation props) s)
     = mkState (phase s) "Please set your native language in Settings first."
               (translations_ s) (Some chosen) (cardData s) (saving s) false.
Proof.
  unfold Async.click, handleAddNativeTranslation. rewrite Hchosen. cbn.
  rewrite Hme. cbn. rewrite Hnone. cbn. by rewrite Hchosen.
Qed.

(** With a native language in the profile, "Add Native Translation"
    asks [formatCard] once, for the candidate chosen before and with that
    language; when this formatting fails the page falls back to choosing
    with the failure shown, and the draft held is still the previous
    one. *)
Lemma add_native_translation_formats_chosen_candidate (env : Env Call)
  (s : State) (chosen : TranslationOption) (user : User) (nl : string)
  (Hchosen : chosenTranslation s = Some chosen)
  (Hme : env _ GetMe = Fulfilled user)
  (Hnl : native_language user = Some nl)
  (Hne : nl <> "") :
  List.filter (fun e => match e with
                        | Called c => is_formatCard _ c
                        | Wrote _ => false
                        end)
    (trace (click env (handleAddNativeTranslation props) s))
    = [Called (FormatCard (deckId props) (opt_word chosen) (translation chosen)
                 (part_of_speech chosen) (context chosen) (Some nl))]
  /\ (forall err : Thrown,
        env _ (FormatCard (deckId props) (opt_word chosen) (translation chosen)
                 (part_of_speech chosen) (context chosen) (Some nl))
        = Rejected err ->
        final (click env (handleAddNativeTranslation props) s)
        = mkState choosing (message_or err "Card formatting failed")
                  (translations_ s) (Some chosen) (cardData s) (saving s) false).
Proof.
  apply truthy_string_true in Hne.
  unfold Async.click, handleAddNativeTranslation. rewrite Hchosen. cbn.
  rewrite Hme. cbn. rewrite Hnl. cbn. rewrite Hne. cbn.
  destruct (env _ (FormatCard _ _ _ _ _ _)) as [draft|err]; cbn.
  - split; [reflexivity|]. intros err [=].
  - split; [reflexivity|]. by intros err' [= <-].
Qed.

(** X13.  In the choosing phase the [i]-th button formats the [i]-th
    candidate, without a native language.  When formatting succeeds the
    page shows the preview of the new draft; when it fails the page is
    back in choosing with the failure shown and the same candidates, so
    the same button can be pressed again. *)
Theorem option_button_formats_its_candidate (env : Env Call) (s : State)
  (i : nat) (opt : TranslationOption)
  (Hword : word props <> "")
  (Hphase : phase s = choosing)
  (Hopt : translations_ s !! i = Some opt) :
  on_click props s (OptionButton i) = Some (formatWithTranslation props opt None)
  /\ (forall draft : CardData,
        env _ (FormatCard (deckId props) (opt_word opt) (translation opt)
                 (part_of_speech opt) (context opt) None) = Fulfilled draft ->
        final (run env (formatWithTranslation props opt None) s)
        = mkState preview "" (translations_ s) (Some opt) (Some draft)
                  (saving s) (addingNative s))
  /\ (forall err : Thrown,
        env _ (FormatCard (deckId props) (opt_word opt) (translation opt)
                 (part_of_speech opt) (context opt) None) = Rejected err ->
        final (run env (formatWithTranslation props opt None) s)
        = mkState choosing (message_or err "Card formatting failed")
                  (translations_ s) (Some opt) (cardData s)
                  (saving s) (addingNative s)
        /\ on_click props (final (run env (formatWithTranslation props opt None) s))
             (OptionButton i)
           = Some (formatWithTranslation props opt None)).
Proof.
  apply truthy_string_true in Hword.
  assert (Hclick : forall s' : State,
            phase s' = choosing -> translations_ s' = translations_ s ->
            on_click props s' (OptionButton i)
            = Some (formatWithTranslation props opt None)).
  { intros s' Hp Ht. unfold on_click. by rewrite Hword, Hp, Ht, Hopt. }
  split; [by apply Hclick|].
  rewrite formatWithTranslation_run. cbn. split.
  - by intros draft ->.
  - intros err ->. split; [reflexivity|]. by apply Hclick.
Qed.

(** X14.  When the translate call fails right after mount, the page ends
    in choosing with the failure as its error: the banner shows it (unless
    the message is empty), there is no candidate to pick and no other
    control, and the one way on is back to the word list. *)
Theorem translate_failure_leaves_only_the_way_back (env : Env Call)
  (err : Thrown)
  (Hword : word props <> "")
  (Hfail : env _ (Translate (word props) "" "" (deckId props)) = Rejected err) :
  final (run env (mount_effect props) initial)
    = mkState choosing (message_or err "Translation failed") [] None None
              false false
  /\ (message_or err "Translation failed" <> "" ->
      error_banner props (final (run env (mount_effect props) initial))
      = Some (message_or err "Translation failed"))
  /\ (forall c : Control,
        on_click props (final (run env (mount_effect props) initial)) c = None)
  /\ nav_buttons props (final (run env (mount_effect props) initial))
     = ["/words"].
Proof.
  apply truthy_string_true in Hword.
  unfold mount_effect. rewrite Hword. cbn [negb].
  rewrite (loadTranslations_failed props env initial err Hfail). cbn [final].
  split; [reflexivity|]. split; [|split].
  - intros Hmsg. unfold error_banner. cbn. rewrite Hword. cbn.
    apply truthy_string_true in Hmsg. by rewrite Hmsg.
  - intros c. unfold on_click. cbn. rewrite Hword. cbn. by destruct c.
  - unfold nav_buttons. cbn. by rewrite Hword.
Qed.

(** X15.  A translate page mounted without a word never calls anything:
    in every state it can reach nothing is pending, the state is the
    initial one, and the render offers the way back to the word list and
    no other control. *)
Theorem page_without_word_stays_idle
  (w : World Call Write State Origin)
  (Hword : word props = "")
  (Hreach : reachable apply (handler props) (mounted_page props) w) :
  pending w = []
  /\ ui w = initial
  /\ nav_buttons props (ui w) = ["/words"]
  /\ (forall c : Control, on_click props (ui w) c = None).
Proof.
  assert (Hclick : forall s c, on_click props s c = None).
  { intros s c. unfold on_click. by rewrite Hword. }
  assert (Hnav : forall s, nav_buttons props s = ["/words"]).
  { intros s. unfold nav_buttons. by rewrite Hword. }
  enough (pending w = [] /\ ui w = initial) as [Hp Hu] by auto.
  induction Hreach as [|w w' _ [IHp IHu] Hstep].
  - unfold mounted_page, mount_effect. rewrite Hword. by split.
  - destruct Hstep as [w o p Hm Hh|w n o R c k r Hn|w Hm].
    + destruct o as [c|]; simpl in Hh; [|discriminate].
      by rewrite Hclick in Hh.
    + by rewrite IHp in Hn.
    + by split.
Qed.

(** X16.  While the page is mounted the busy flags tell the truth:
    [saving] is raised exactly when an Accept run is waiting for a call,
    and [addingNative] exactly when an "Add Native Translation" run is, so
    neither button is left disabled after its run has ended. *)
Theorem busy_flags_mirror_pending_runs
  (w : World Call Write State Origin)
  (Hreach : reachable apply (handler props) (mounted_page props) w)
  (Hmounted : mounted w = true) :
  (saving (ui w) = true <-> started_by is_accept w = 1%nat)
  /\ (addingNative (ui w) = true <-> started_by is_addNative w = 1%nat).
Proof.
  split.
  - assert (H : exclusive is_accept saving touches_saving w
                /\ mirrored is_accept saving touches_saving w).
    { eapply (mirrored_reachable apply (handler props) saving touches_saving
                saving_set saving_kept is_accept); [| |exact Hreach| |].
      - intros s o p Hh HG.
        destruct (handler_cases props s o p Hh)
          as [(i & opt & -> & _)|[(-> & Hs & ->)|(-> & _ & _)]];
          try discriminate.
        destruct (cardData s) as [data|] eqn:Hdata.
        + split; [assumption|]. split; [apply handleAccept_guarded|].
          rewrite <- Hs. by apply (handleAccept_lowered s data).
        + split; [assumption|]. unfold handleAccept. rewrite Hdata. by split.
      - intros s o p Hh HG.
        destruct (handler_cases props s o p Hh)
          as [(i & opt & -> & ->)|[(-> & _ & _)|(-> & _ & ->)]];
          try discriminate.
        + by apply formatWithTranslation_shape.
        + apply handleAddNativeTranslation_guarded.
      - apply (accept_exclusive props). constructor.
      - unfold mounted_page.
        apply (proceed_mirrored_other apply saving touches_saving saving_kept
                 is_accept); [reflexivity| |constructor|reflexivity].
        by apply mount_effect_shape. }
    destruct H as [He Hm].
    by eapply flag_mirrors_pending.
  - assert (H : exclusive is_addNative addingNative touches_addingNative w
                /\ mirrored is_addNative addingNative touches_addingNative w).
    { eapply (mirrored_reachable apply (handler props) addingNative
                touches_addingNative addingNative_set addingNative_kept
                is_addNative); [| |exact Hreach| |].
      - intros s o p Hh HG.
        destruct (handler_cases props s o p Hh)
          as [(i & opt & -> & _)|[(-> & _ & _)|(-> & Hs & ->)]];
          try discriminate.
        destruct (chosenTranslation s) as [chosen|] eqn:Hch.
        + split; [assumption|].
          split; [apply handleAddNativeTranslation_guarded|].
          rewrite <- Hs. by apply (handleAddNativeTranslation_lowered s chosen).
        + split; [assumption|]. unfold handleAddNativeTranslation.
          rewrite Hch. by split.
      - intros s o p Hh HG.
        destruct (handler_cases props s o p Hh)
          as [(i & opt & -> & ->)|[(-> & _ & ->)|(-> & _ & _)]];
          try discriminate.
        + by apply formatWithTranslation_shape.
        + apply handleAccept_guarded.
      - apply (addNative_exclusive props). constructor.
      - unfold mounted_page.
        apply (proceed_mirrored_other apply addingNative touches_addingNative
                 addingNative_kept is_addNative);
          [reflexivity| |constructor|reflexivity].
        by apply mount_effect_shape. }
    destruct H as [He Hm].
    by eapply flag_mirrors_pending.
Qed.

End TranslatePageMore.

Section TranslatePageStable.

Import Async Api TranslatePage.

Variable props : Props.

Lemma translate_handlers_keep_selection (s : State) (o : Origin) (p : Handler) :
  handler props s o = Some p -> writes_all keeps_selection p.
Proof.
  intros Hh.
  destruct (handler_cases props s o p Hh)
    as [(i & opt & -> & ->)|[(-> & _ & ->)|(-> & _ & ->)]].
  - by walk.
  - unfold handleAccept. destruct (cardData s); by walk.
  - unfold handleAddNativeTranslation. destruct (chosenTranslation s); [|by walk].
    cbn. split; [exact I|]. intros [user|err]; [|by walk].
    cbn. destruct (negb (truthy_opt (native_language user))); by walk.
Qed.

Lemma mount_effect_keeps_selection :
  writes_all keeps_selection (mount_effect props).
Proof.
  unfold mount_effect. destruct (negb _); [exact I|].
  unfold loadTranslations. cbn. split; [exact I|]. split; [exact I|].
  intros [result|err]; cbn; [|by walk]. split; [exact I|].
  destruct (translations result) as [|only [|]]; by walk.
Qed.

(** X17.  Nothing on the translate page ever clears the draft or the
    chosen candidate: from any state the page can reach, once a draft is
    held a draft is held in every later state, whatever is clicked and
    however the calls settle; the same for the chosen candidate. *)
Theorem draft_and_choice_are_never_cleared
  (w1 w2 : World Call Write State Origin)
  (Hreach : reachable apply (handler props) (mounted_page props) w1)
  (Hlater : reachable apply (handler props) w1 w2) :
  (is_Some (cardData (ui w1)) -> is_Some (cardData (ui w2)))
  /\ (is_Some (chosenTranslation (ui w1)) ->
      is_Some (chosenTranslation (ui w2))).
Proof.
  assert (Hall : Forall (fun t : Task Call Write Origin =>
                           writes_all keeps_selection (snd t)) (pending w1)).
  { apply (inherited_reachable apply (handler props)
             (fun _ p => writes_all keeps_selection p))
      with (w0 := mounted_page props);
      [intros o x k [_ Hk]; exact Hk
      |intros o R c k r Hk; exact (Hk r)
      |exact translate_handlers_keep_selection
      |assumption|].
    unfold mounted_page.
    apply (inherited_proceed apply (fun _ p => writes_all keeps_selection p));
      [intros o x k [_ Hk]; exact Hk
      |exact mount_effect_keeps_selection
      |constructor]. }
  split.
  - apply (stable_reachable apply (handler props) keeps_selection
             (fun s => is_Some (cardData s))); try assumption.
    + intros [p|e|l|o|[d|]|b|b] s Hw Hs; simpl in *; eauto; contradiction.
    + exact translate_handlers_keep_selection.
  - apply (stable_reachable apply (handler props) keeps_selection
             (fun s => is_Some (chosenTranslation s))); try assumption.
    + intros [p|e|l|[o|]|d|b|b] s Hw Hs; simpl in *; eauto; contradiction.
    + exact translate_handlers_keep_selection.
Qed.

End TranslatePageStable.

(* ===================================================================== *)
(** * More on the word page                                               *)
(* ===================================================================== *)

Section WordSelectPageMore.

Import Async Api WordSelectPage.

Variable props : Props.

(** Without a deck a tap asks no one: the word is selected and the
    router goes to the translate page at once, no duplicate check is
    called and the page's own state is not touched. *)
Lemma tap_without_deck_skips_duplicate_check (env : Env Call) (s : State)
  (word : string)
  (Hdeck : deckId props = "") :
  trace (run env (handleWordClick props word) s)
    = [Wrote (onWordSelected word); Wrote (navigate "/translate")]
  /\ final (run env (handleWordClick props word) s)
     = mkState (checking s) (duplicate s) word "/translate"
  /\ result (run env (handleWordClick props word) s) = Fulfilled tt.
Proof.
  unfold handleWordClick. rewrite Hdeck. by repeat split.
Qed.

(** X19.  A duplicate verdict stops the tap: the word is not selected and
    the router stays, the warning holds the tapped word with the server's
    explanation, or the stock sentence when there is none, and the check is
    over.  "Proceed Anyway" then selects that very word and goes to the
    translate page; "Choose Different Word" just drops the warning, and
    the word buttons work again. *)
Theorem duplicate_verdict_offers_the_choice (env : Env Call) (s : State)
  (word : string) (verdict : DuplicateResult) (i : nat)
  (Hdeck : deckId props <> "")
  (Hplace : location s = "/words")
  (Hwords : words props <> [])
  (Hcheck : env _ (CheckDuplicate word (deckId props) "") = Fulfilled verdict)
  (Hdup : is_duplicate verdict = true) :
  final (run env (handleWordClick props word) s)
    = mkState None
        (Some (mkDuplicate word
                 (or_else (explanation verdict)
                    "This word may already exist in your deck.")
                 (duplicate_of_id verdict)))
        (selectedWord s) "/words"
  /\ (forall after : State,
        after = final (run env (handleWordClick props word) s) ->
        (exists proceed_ : Handler,
           on_click props after ProceedAnywayButton = Some proceed_
           /\ selectedWord (final (run env proceed_ after)) = word
           /\ location (final (run env proceed_ after)) = "/translate")
        /\ (exists drop : Handler,
              on_click props after ChooseDifferentButton = Some drop
              /\ final (run env drop after)
                 = mkState None None (selectedWord s) "/words"
              /\ on_click props (final (run env drop after)) (WordButton i)
                 = handleWordClick props <$> words props !! i)).
Proof.
  rewrite (handleWordClick_run props env s word Hdeck), Hcheck, Hdup.
  cbn [final]. rewrite Hplace. split; [reflexivity|].
  intros after ->. destruct (words props) as [|w0 ws] eqn:Hw; [done|].
  split.
  - eexists. split; [unfold on_click; cbn; by rewrite Hw|]. by split.
  - eexists. split; [unfold on_click; cbn; by rewrite Hw|].
    split; [reflexivity|]. unfold on_click. cbn. by rewrite Hw.
Qed.

Lemma word_handlers_lowered (s : State) (c : Control) (p : Handler) :
  on_click props s c = Some p -> is_word_button c = true ->
  is_checking s = false
  /\ guarded touches_checking false p
  /\ lowered touches_checking false p.
Proof.
  intros Hh HG.
  destruct (on_click_cases props s c p Hh)
    as [(i & word & -> & Hc & ->)|[(-> & _)|(-> & _)]]; try discriminate.
  split; [assumption|]. split; [apply handleWordClick_guarded|].
  unfold handleWordClick. destruct (negb (truthy_string (deckId props)));
    [by walk|].
  cbn. intros [verdict|err]; [|by walk].
  cbn. destruct (is_duplicate verdict); by walk.
Qed.

(** X20.  On the word page "Checking for duplicates..." tells the truth:
    while the page is mounted [checking] is set exactly when a duplicate
    check is in flight, so the word buttons are never left disabled after
    the check has settled. *)
Theorem checking_mirrors_the_pending_check (selected : string)
  (w : World Call Write State Control)
  (Hreach : reachable apply (on_click props) (mounted_page selected) w)
  (Hmounted : mounted w = true) :
  is_checking (ui w) = true <-> in_flight any_call w = 1%nat.
Proof.
  assert (H : exclusive is_word_button is_checking touches_checking w
              /\ mirrored is_word_button is_checking touches_checking w).
  { eapply (mirrored_reachable apply (on_click props) is_checking
              touches_checking checking_set checking_kept is_word_button);
      [exact word_handlers_lowered| |exact Hreach| |].
    - intros s c p Hh HG.
      destruct (on_click_cases props s c p Hh)
        as [(i & word & -> & _ & _)|[(-> & ->)|(-> & ->)]]; try discriminate.
      + apply proceedAnyway_shape.
      + by walk.
    - split; [constructor|by left].
    - intros _. split; [constructor|reflexivity]. }
  destruct H as [He Hm].
  assert (Hsame : in_flight any_call w = started_by is_word_button w).
  { apply Nat.le_antisymm.
    - apply in_flight_le_started.
      by apply (calls_only_by_word_tap props selected).
    - apply started_le_in_flight.
      apply (pending_are_suspended apply (on_click props)
               (mounted_page selected)); [assumption|constructor]. }
  rewrite Hsame. by eapply flag_mirrors_pending.
Qed.

End WordSelectPageMore.

(* ===================================================================== *)
(** * The login, camera, cards and settings pages                         *)
(* ===================================================================== *)

Section LoginPageFacts.

Import Async Gateway App LoginPage.

Context {runtime : Runtime}.

(** X21.  A login that succeeds hands the token to [setToken] and goes to
    the start page with the form idle and no error: the token is the
    credential in memory and, when it is not empty, it is stored, the
    guard lets the pages render and a page load finds it again. *)
Theorem login_stores_token_and_enters (env : Env Call) (s : State)
  (answer : LoginResult)
  (Hlogin : env _ (Login (username s) (password s)) = Fulfilled answer) :
  final (click env handleSubmit s)
    = mkState (username s) (password s) "" false
        (Gateway.setToken (Some (access_token answer)) (session s)) "/"
  /\ getToken (session (final (click env handleSubmit s)))
     = Some (access_token answer)
  /\ (access_token answer <> "" ->
      ProtectedRoute (session (final (click env handleSubmit s))) = Children
      /\ getToken (load_module
                     (localStorage (session (final (click env handleSubmit s))))
                     "/")
         = Some (access_token answer)).
Proof.
  assert (Hfinal : final (click env handleSubmit s)
                   = mkState (username s) (password s) "" false
                       (Gateway.setToken (Some (access_token answer)) (session s))
                       "/").
  { unfold Async.click, handleSubmit. cbn. rewrite Hlogin. reflexivity. }
  rewrite Hfinal. cbn [session].
  split; [reflexivity|]. split; [apply setToken_authToken|].
  intros Hne. apply truthy_string_true in Hne. split.
  - unfold ProtectedRoute, getToken. rewrite setToken_authToken. simpl.
    by rewrite Hne.
  - unfold getToken, load_module. simpl. rewrite setToken_stored. simpl.
    by rewrite Hne.
Qed.

(** X22.  A login that fails touches nothing but the form: the session
    (credential and store) and the location are what they were, the error
    shown is the failure's message, and the form is idle again with what
    was typed. *)
Theorem failed_login_leaves_session_alone (env : Env Call) (s : State)
  (err : Thrown)
  (Hlogin : env _ (Login (username s) (password s)) = Rejected err) :
  final (click env handleSubmit s)
    = mkState (username s) (password s) (message_or err "Login failed") false
        (session s) (location s)
  /\ result (click env handleSubmit s) = Fulfilled tt.
Proof.
  unfold Async.click, handleSubmit. cbn. rewrite Hlogin. by split.
Qed.

End LoginPageFacts.

Section CameraPageFacts.

Import Async CameraPage.

(** X23.  A photo that cannot be read costs nothing already there: when
    the extraction fails, the words of an earlier photo are still the
    shell's words, the page stays where it is with the failure shown and
    the button enabled again; and closing the file picker without a file
    does nothing at all. *)
Theorem failed_extraction_keeps_earlier_words (env : Env Call) (s : State)
  (file : string) (err : Thrown)
  (Hocr : env _ (Ocr file) = Rejected err) :
  final (run env (handleFile (Some file)) s)
    = mkState false (message_or err "OCR failed") (ocrWords s) (location s)
  /\ result (run env (handleFile (Some file)) s) = Fulfilled tt
  /\ trace (run env (handleFile None) s) = []
  /\ final (run env (handleFile None) s) = s.
Proof.
  unfold handleFile. cbn. rewrite Hocr. by repeat split.
Qed.

(** X24.  The words of a photo reach the word page as extracted: after a
    successful extraction the shell holds exactly the answer's words, the
    router is on the word page, and that page has one enabled button per
    word, the [i]-th for the [i]-th word -- so none at all for an empty
    answer. *)
Theorem extracted_words_become_word_buttons (env : Env Call) (s : State)
  (file : string) (answer : OcrResult) (deck selected : string) (i : nat)
  (Hocr : env _ (Ocr file) = Fulfilled answer) :
  final (run env (handleFile (Some file)) s)
    = mkState false "" (words answer) "/words"
  /\ WordSelectPage.on_click
       (WordSelectPage.mkProps
          (ocrWords (final (run env (handleFile (Some file)) s))) deck)
       (WordSelectPage.initial selected) (WordSelectPage.WordButton i)
     = WordSelectPage.handleWordClick
         (WordSelectPage.mkProps (words answer) deck) <$> words answer !! i
  /\ (words answer = [] ->
      forall c : WordSelectPage.Control,
        WordSelectPage.on_click
          (WordSelectPage.mkProps
             (ocrWords (final (run env (handleFile (Some file)) s))) deck)
          (WordSelectPage.initial selected) c = None).
Proof.
  assert (Hfinal : final (run env (handleFile (Some file)) s)
                   = mkState false "" (words answer) "/words").
  { unfold handleFile. cbn. rewrite Hocr. reflexivity. }
  rewrite Hfinal. cbn [ocrWords]. split; [reflexivity|]. split.
  - unfold WordSelectPage.on_click. cbn.
    destruct (words answer) as [|w0 ws]; reflexivity.
  - intros Hnil c. unfold WordSelectPage.on_click. cbn. by rewrite Hnil.
Qed.

End CameraPageFacts.

Section CardsPageFacts.

Import Async CardsPage.


(** X25.  The card list loads quietly: a failed load leaves the cards
    shown before and raises nothing, a successful one replaces them by the
    answer, either way the loading view ends; and the request is narrowed
    to the deck exactly when a deck is selected. *)
Theorem loadCards_is_quiet (env : Env Call) (deckId : string) (s : State) :
  result (run env (loadCards deckId) s) = Fulfilled tt
  /\ loading (final (run env (loadCards deckId) s)) = false
  /\ cards (final (run env (loadCards deckId) s))
     = match env _ (ListCards (if truthy_string deckId
                               then [("deck_id", deckId)] else [])) with
       | Fulfilled answer => answer
       | Rejected _ => cards s
       end
  /\ List.filter (fun e => match e with Called _ => true | Wrote _ => false end)
       (trace (run env (loadCards deckId) s))
     = [Called (ListCards (if truthy_string deckId
                           then [("deck_id", deckId)] else []))].
Proof.
  unfold loadCards. cbn.
  destruct (env _ _) as [answer|err]; by repeat split.
Qed.


End CardsPageFacts.

Section ConfigPageFacts.

Import Async ConfigPage.

(** X27.  Opening the settings with no deck selected selects the first
    deck of the list and stores the choice; with a deck already selected,
    or an empty list, the selection and the store are left alone.  When
    either of the two calls fails nothing at all changes and nothing is
    raised, both calls having gone out. *)
Theorem loadData_selects_first_deck_only_when_none (env : Env Call) (s : State) :
  result (click env loadData s) = Fulfilled tt
  /\ List.filter (fun e => match e with Called _ => true | Wrote _ => false end)
       (trace (click env loadData s))
     = [Called ListDecks; Called GetMe]
  /\ match env _ ListDecks, env _ GetMe with
     | Fulfilled deckList, Fulfilled user =>
         decks (final (click env loadData s)) = deckList
         /\ nativeLanguage (final (click env loadData s))
            = or_else (Api.native_language user) ""
         /\ match deckList with
            | first :: _ =>
                if truthy_string (selectedDeckId s)
                then selectedDeckId (final (click env loadData s))
                     = selectedDeckId s
                     /\ storage (final (click env loadData s)) = storage s
                else selectedDeckId (final (click env loadData s))
                     = deck_id first
                     /\ App.initial_selectedDeckId
                          (storage (final (click env loadData s)))
                        = deck_id first
            | [] =>
                selectedDeckId (final (click env loadData s)) = selectedDeckId s
                /\ storage (final (click env loadData s)) = storage s
            end
     | _, _ => final (click env loadData s) = s
     end.
Proof.
  unfold Async.click, loadData. cbn.
  destruct (env _ ListDecks) as [deckList|e1], (env _ GetMe) as [user|e2]; cbn;
    try by repeat split.
  destruct (truthy_string (selectedDeckId s)) eqn:Hsel; cbn.
  - split; [reflexivity|]. split; [reflexivity|].
    split; [reflexivity|]. split; [reflexivity|]. by destruct deckList.
  - destruct deckList as [|first rest]; cbn.
    + by repeat split.
    + split; [reflexivity|]. split; [reflexivity|].
      split; [reflexivity|]. split; [reflexivity|]. split; [reflexivity|].
      unfold App.initial_selectedDeckId. rewrite lookup_insert_eq.
      destruct (truthy_string (deck_id first)) eqn:E; [reflexivity|].
      symmetry. by apply truthy_string_false.
Qed.

(** X28.  Saving the settings updates the profile first and the deck
    second, and the deck only when one is selected and the profile update
    went through; a language field left blank is sent as absent.  Whatever
    happens the button is enabled again. *)
Theorem handleSave_updates_profile_then_deck (env : Env Call) (s : State) :
  saving (final (click env handleSave s)) = false
  /\ result (click env handleSave s) = Fulfilled tt
  /\ List.filter (fun e => match e with Called _ => true | Wrote _ => false end)
       (trace (click env handleSave s))
     = Called (UpdateMe (nativeLanguage s))
       :: match env _ (UpdateMe (nativeLanguage s)) with
          | Fulfilled _ =>
              if truthy_string (selectedDeckId s)
              then [Called (UpdateDeck (selectedDeckId s)
                              (or_undefined (sourceLang s))
                              (or_undefined (targetLang s)))]
              else []
          | Rejected _ => []
          end
  /\ (or_undefined "" = None).
Proof.
  unfold Async.click, handleSave. cbn.
  destruct (env _ (UpdateMe _)) as [[]|err]; cbn; [|by repeat split].
  destruct (truthy_string (selectedDeckId s)); cbn; [|by repeat split].
  destruct (env _ (UpdateDeck _ _ _)) as [[]|err]; by repeat split.
Qed.

Lemma includes_fail_in_fallback : includes "fail" "Failed to save" = false.
Proof. reflexivity. Qed.

(** X29.  The colour of the settings message follows the text, not the
    outcome: it is red only when the message contains the lower-case text
    "fail".  A successful save shows "Settings saved." in green; a save
    that fails with something that is not an [Error] shows the stock
    "Failed to save" in green as well; a save that fails with an [Error]
    shows its message, red if it contains "fail" and green if not. *)
Theorem save_message_colour_follows_text (env : Env Call) (s : State)
  (Hnodeck : selectedDeckId s = "") :
  match env _ (UpdateMe (nativeLanguage s)) with
  | Fulfilled _ =>
      message (final (click env handleSave s)) = "Settings saved."
      /\ message_colour (final (click env handleSave s)) = Some green
  | Rejected OtherValue =>
      message (final (click env handleSave s)) = "Failed to save"
      /\ message_colour (final (click env handleSave s)) = Some green
  | Rejected (ErrorInstance m) =>
      message (final (click env handleSave s)) = m
      /\ (m <> "" ->
          message_colour (final (click env handleSave s))
          = Some (if includes "fail" m then red else green))
  end.
Proof.
  unfold Async.click, handleSave. cbn. rewrite Hnodeck. cbn.
  destruct (env _ (UpdateMe _)) as [[]|[m|]]; cbn; try by split.
  split; [reflexivity|]. intros Hm. unfold message_colour. cbn.
  apply truthy_string_true in Hm. by rewrite Hm.
Qed.

(** X30.  Opening the settings without a deck on a non-empty deck list
    ends, once the language effect has run, with the first deck selected
    and its two languages in the fields (blank where the deck has
    none). *)
Theorem first_deck_languages_are_shown (env : Env Call) (s : State)
  (first : Deck) (rest : list Deck) (user : Api.User)
  (Hnone : selectedDeckId s = "")
  (Hdecks : env _ ListDecks = Fulfilled (first :: rest))
  (Hme : env _ GetMe = Fulfilled user) :
  selectedDeckId
    (final (click env sync_languages (final (click env loadData s))))
    = deck_id first
  /\ sourceLang
       (final (click env sync_languages (final (click env loadData s))))
     = or_else (source_language first) ""
  /\ targetLang
       (final (click env sync_languages (final (click env loadData s))))
     = or_else (target_language first) "".
Proof.
  unfold Async.click at 2 4 6. unfold loadData. cbn.
  rewrite Hdecks, Hme, Hnone. cbn.
  unfold Async.click, sync_languages. cbn. rewrite String.eqb_refl. cbn.
  by repeat split.
Qed.

End ConfigPageFacts.

(* ===================================================================== *)
(** * Loading views are waited out                                        *)
(* ===================================================================== *)

Section Attended.

Import Async.

Context {Call : Type -> Type} {Write State Origin : Type}.
Variable apply : Write -> State -> State.
Variable handler : State -> Origin -> option (Prog Call Write unit).

Local Abbreviation World := (Async.World Call Write State Origin).
Local Abbreviation Task := (Async.Task Call Write Origin).
Local Abbreviation step := (Async.step apply handler).
Local Abbreviation reachable := (Async.reachable apply handler).
Local Abbreviation proceed := (Async.proceed apply).

Variable flag : State -> bool.
Variable touches : Write -> option bool.
Variable P : forall R : Type, Call R -> bool.

Hypothesis flag_set :
  forall w s b, touches w = Some b -> flag (apply w s) = b.
Hypothesis flag_kept :
  forall w s, touches w = None -> flag (apply w s) = flag s.
Hypothesis handlers_attended :
  forall s o p, handler s o = Some p -> attended touches P false None p.

Local Abbreviation waits_attended :=
  (@Async.waits_attended Call Write Origin touches P).
Local Abbreviation attentive :=
  (@Async.attentive Call Write State Origin flag touches P).

Local Abbreviation flight := (@Async.count_awaiting Call Write Origin P).

Lemma in_flight_flight (w : World) : in_flight P w = flight (pending w).
Proof.
  reflexivity.
Qed.

Lemma flight_snoc (l : list Task) (t : Task) :
  flight (l ++ [t]) = (flight l + if awaits P (snd t) then 1 else 0)%nat.
Proof.
  unfold count_awaiting. rewrite List.filter_app, length_app. simpl.
  by destruct (awaits P (snd t)).
Qed.

Lemma flight_delete (l : list Task) (n : nat) (t : Task) :
  l !! n = Some t ->
  flight l = (flight (delete n l) + if awaits P (snd t) then 1 else 0)%nat.
Proof.
  revert n. induction l as [|x l IH]; intros [|n] Hn; simpl in *;
    try discriminate.
  - injection Hn as ->. unfold count_awaiting. simpl.
    destruct (awaits P (snd t)); simpl; lia.
  - specialize (IH n Hn). unfold count_awaiting in *. simpl.
    destruct (awaits P (snd x)); simpl; lia.
Qed.

Lemma advance_attended (p : Prog Call Write unit) (s : State)
  (must : bool) (seen : option bool) (before : bool) :
  attended touches P must seen p ->
  match seen with Some b => flag s = b | None => flag s = before end ->
  match fst (advance apply p s) with
  | Await c k => forall r, attended touches P (P _ c) None (k r)
  | _ => True
  end
  /\ (awaits P (fst (advance apply p s)) = true
      \/ flag (snd (advance apply p s)) = false
      \/ (must = false /\ flag (snd (advance apply p s)) = before)).
Proof.
  revert s seen. induction p as [a|e|w k IH|R c k IH]; intros s seen Hp Hseen;
    simpl in *.
  - split; [exact I|]. destruct Hp as [->|[-> ->]]; auto.
  - split; [exact I|]. destruct Hp as [->|[-> ->]]; auto.
  - apply (IH (apply w s) _ Hp).
    destruct (touches w) as [b|] eqn:E.
    + by apply flag_set.
    + rewrite (flag_kept _ _ E). exact Hseen.
  - destruct Hp as [Hend Hk]. split; [exact Hk|].
    destruct Hend as [Hc|[->|[-> ->]]]; auto.
Qed.

(** Starting or resuming the run [p] beside [others]; [must] tells whether
    it resumes from a call of kind [P]. *)
Lemma proceed_attentive (o : Origin) (p : Prog Call Write unit)
  (others : list Task) (w : World) (must : bool) :
  mounted w = true ->
  attended touches P must None p ->
  Forall waits_attended others ->
  (must = false -> flag (ui w) = true -> (1 <= flight others)%nat) ->
  attentive (proceed o p others w).
Proof.
  intros Hm Hp Hothers Hkeep _. unfold Async.proceed, keep. rewrite Hm.
  pose proof (advance_attended p (ui w) must None (flag (ui w)) Hp eq_refl)
    as [Htask Hend].
  destruct (advance apply p (ui w)) as [p' s']. simpl in *.
  rewrite in_flight_flight. simpl.
  destruct (suspended p') eqn:Es; simpl.
  - split.
    + apply Forall_app. split; [assumption|]. constructor; [|constructor].
      unfold Async.waits_attended. simpl. exact Htask.
    + intros Hf. rewrite flight_snoc. simpl.
      destruct Hend as [Ha|[Hdown|[-> Hsame]]].
      * rewrite Ha. lia.
      * congruence.
      * rewrite Hsame in Hf. specialize (Hkeep eq_refl Hf). lia.
  - split; [assumption|]. intros Hf.
    destruct Hend as [Ha|[Hdown|[-> Hsame]]].
    + destruct p'; discriminate.
    + congruence.
    + rewrite Hsame in Hf. by apply Hkeep.
Qed.

Lemma attentive_step (w w' : World) :
  step w w' -> attentive w -> attentive w'.
Proof.
  intros Hstep Hw.
  destruct Hstep as [w o p Hm Hh|w n o R c k r Hn|w Hm];
    [| |unfold Async.attentive; simpl; discriminate].
  - destruct (Hw Hm) as [Hall Hflag].
    apply (proceed_attentive o p (pending w) w false); try assumption.
    + eapply handlers_attended; eauto.
    + intros _ Hf. rewrite <- in_flight_flight. by apply Hflag.
  - destruct (mounted w) eqn:Hm.
    2:{ unfold Async.attentive, Async.proceed. rewrite Hm. simpl.
        discriminate. }
    destruct (Hw Hm) as [Hall Hflag].
    pose proof (proj1 (Forall_lookup _ _) Hall n _ Hn) as Hk.
    unfold Async.waits_attended in Hk. simpl in Hk.
    pose proof (flight_delete _ _ _ Hn) as Hdel. simpl in Hdel.
    apply (proceed_attentive o (k r) (delete n (pending w)) w (P R c));
      try assumption.
    + apply Hk.
    + by apply Forall_delete.
    + intros Hmust Hf. rewrite Hmust in Hdel.
      specialize (Hflag Hf). rewrite in_flight_flight in Hflag. lia.
Qed.

Lemma attentive_reachable (w0 w : World) :
  reachable w0 w -> attentive w0 -> attentive w.
Proof.
  induction 1 as [|w w' _ IH Hstep]; intros H0; [assumption|].
  eapply attentive_step; eauto.
Qed.

End Attended.

(** Walks through a handler whose stretches end in one of the ways
    [attended] lists. *)
Ltac attend :=
  repeat first
    [ progress cbn
    | match goal with
      | |- _ /\ _ => split
      | |- forall _ : Settled _, _ => intros [?|?]
      | |- forall _, _ => intro
      | |- True => exact I
      | |- _ \/ _ => first [ left; reflexivity
                           | right; left; reflexivity
                           | right; right; split; reflexivity
                           | right; split; reflexivity ]
      end ].

Section TranslatePageAttended.

Import Async Api TranslatePage.

Variable props : Props.

Lemma loading_set (w : Write) (s : State) (b : bool) :
  touches_loading w = Some b -> is_loading (apply w s) = b.
Proof. destruct w; simpl; try congruence. by intros [= <-]. Qed.

Lemma loading_kept (w : Write) (s : State) :
  touches_loading w = None -> is_loading (apply w s) = is_loading s.
Proof. destruct w; simpl; intros H; try discriminate; reflexivity. Qed.

Lemma translate_handlers_attended (s : State) (o : Origin) (p : Handler) :
  handler props s o = Some p ->
  attended touches_loading is_loading_call false None p.
Proof.
  intros Hh.
  destruct (handler_cases props s o p Hh)
    as [(i & opt & -> & ->)|[(-> & _ & ->)|(-> & _ & ->)]].
  - by attend.
  - unfold handleAccept. destruct (cardData s); by attend.
  - unfold handleAddNativeTranslation.
    destruct (chosenTranslation s); [|by attend].
    cbn. split; [by attend|]. intros [user|err]; [|by attend].
    cbn. destruct (negb (truthy_opt (native_language user))); by attend.
Qed.

(** X18.  The two loading views are never a dead end.  They show no
    control at all, and while the page of a word is mounted and its phase
    is translating or formatting, a translate or format call is in
    flight. *)
Theorem loading_views_are_waited_out
  (w : World Call Write State Origin)
  (Hword : word props <> "")
  (Hreach : reachable apply (handler props) (mounted_page props) w)
  (Hmounted : mounted w = true)
  (Hloading : phase (ui w) = translating \/ phase (ui w) = formatting) :
  (forall c : Control, on_click props (ui w) c = None)
  /\ nav_buttons props (ui w) = []
  /\ (1 <= in_flight is_loading_call w)%nat.
Proof.
  apply truthy_string_true in Hword.
  split; [|split].
  - intros c. unfold on_click. rewrite Hword. cbn.
    by destruct Hloading as [-> | ->].
  - unfold nav_buttons. rewrite Hword. cbn.
    by destruct Hloading as [-> | ->].
  - assert (Hw : attentive is_loading touches_loading is_loading_call w).
    { apply (attentive_reachable apply (handler props) is_loading
               touches_loading is_loading_call loading_set loading_kept
               translate_handlers_attended (mounted_page props));
        [assumption|].
      intros _. unfold mounted_page, mount_effect. rewrite Hword. cbn.
      split; [|reflexivity]. constructor; [|constructor].
      unfold waits_attended. cbn. intros [answer|err]; cbn; [|by attend].
      destruct (translations answer) as [|only [|]]; by attend. }
    apply (Hw Hmounted). unfold is_loading.
    by destruct Hloading as [-> | ->].
Qed.

End TranslatePageAttended.

(* ===================================================================== *)
(** * The further sessions                                                *)
(* ===================================================================== *)

Section MoreExamples.

Import Async Gateway App Api Samples Sessions.

Lemma request_carries_current_token_witness :
  "jwt" <> ""
  /\ req_headers (fetch_of "/cards" default_init (setToken (Some "jwt") signed_out))
       !! "Authorization"
     = Some "Bearer jwt".
Proof.
  split; [discriminate|].
  exact (proj1 (request_carries_current_token (answers VNull) "/cards"
                  default_init signed_out "jwt" ltac:(discriminate))).
Defined.

Lemma request_keeps_session_unless_401_witness :
  authToken (snd (request unauthorized "/auth/login" default_init signed_in))
  = Some "jwt".
Proof.
  assert (H : forall res : Response,
            unauthorized (fetched signed_in
                          ++ [fetch_of "/auth/login" default_init signed_in])
            = Fulfilled res ->
            status res = 401 -> String.prefix "/auth/login" "/auth/login" = true).
  { intros res _ _. reflexivity. }
  exact (proj1 (request_keeps_session_unless_401 unauthorized "/auth/login"
                  default_init signed_in H)).
Defined.

Lemma unauthorized_answer_forces_login_witness :
  href (snd (request unauthorized "/cards" default_init signed_in)) = "/login".
Proof.
  exact (proj1 (proj2 (proj2 (proj2 (proj2
    (unauthorized_answer_forces_login unauthorized "/cards" default_init
       signed_in refused "/" eq_refl eq_refl eq_refl)))))).
Defined.

Lemma acceptCard_resolves_on_no_content_witness :
  fst (api_acceptCard no_content "card-1" signed_in) = Fulfilled VUndefined.
Proof.
  exact (proj1 (proj1
    (acceptCard_resolves_on_no_content no_content "card-1" signed_in
       (mkResponse 204 "No Content"
          (Rejected (ErrorInstance "Unexpected end of JSON input")))
       eq_refl) eq_refl)).
Defined.

Lemma request_surfaces_detail_witness :
  fst (request unauthorized "/cards" default_init signed_in)
  = Rejected (ErrorInstance "Could not validate credentials").
Proof.
  exact (proj1
    (request_surfaces_detail unauthorized "/cards" default_init signed_in
       refused [("detail", VStr "Could not validate credentials")]
       eq_refl eq_refl eq_refl)
    "Could not validate credentials" eq_refl ltac:(discriminate)).
Defined.

Lemma content_type_follows_body_witness :
  req_headers (fetch_of "/translate" (translate_options hund_request) signed_in)
    !! "Content-Type"
  = Some "application/json".
Proof.
  exact (proj1
    (content_type_follows_body "/translate" (translate_options hund_request)
       "photo" signed_in) eq_refl).
Defined.

Lemma accept_saves_and_ends_the_session_witness :
  final (TranslatePage.click (answering all_fine)
           (TranslatePage.handleAccept hund) hund_preview)
  = TranslatePage.mkState TranslatePage.saved "" [dog] (Some dog)
      (Some hund_card) false false.
Proof.
  exact (proj1 (proj2
    (accept_saves_and_ends_the_session hund (answering all_fine) hund_preview
       hund_card (mkCreated "card-1") eq_refl eq_refl eq_refl))).
Defined.

Lemma accept_stops_when_card_is_not_created_witness :
  TranslatePage.count is_acceptCard
    (trace (TranslatePage.click (answering all_down)
              (TranslatePage.handleAccept hund) hund_preview))
  = 0%nat.
Proof.
  exact (proj1
    (proj2 (accept_stops_when_card_is_not_created hund (answering all_down)
              hund_preview)
       hund_card (ErrorInstance "Service Unavailable") eq_refl eq_refl)).
Defined.

Lemma add_native_translation_needs_native_language_witness :
  final (TranslatePage.click (answering no_native_language)
           (TranslatePage.handleAddNativeTranslation hund) hund_preview)
  = TranslatePage.mkState TranslatePage.preview
      "Please set your native language in Settings first." [dog] (Some dog)
      (Some hund_card) false false.
Proof.
  exact (proj2
    (add_native_translation_needs_native_language hund
       (answering no_native_language) hund_preview dog
       (mkUser "u1" "testuser" None) eq_refl eq_refl eq_refl)).
Defined.

Lemma option_button_formats_its_candidate_witness :
  TranslatePage.on_click hund hund_choosing (TranslatePage.OptionButton 1)
  = Some (TranslatePage.formatWithTranslation hund hound None).
Proof.
  exact (proj1
    (option_button_formats_its_candidate hund (answering all_fine)
       hund_choosing 1 hound ltac:(discriminate) eq_refl eq_refl)).
Defined.

Lemma translate_failure_leaves_only_the_way_back_witness :
  final (TranslatePage.run (answering all_down) (TranslatePage.mount_effect hund)
           TranslatePage.initial)
  = TranslatePage.mkState TranslatePage.choosing "Service Unavailable" [] None
      None false false.
Proof.
  exact (proj1
    (translate_failure_leaves_only_the_way_back hund (answering all_down)
       (ErrorInstance "Service Unavailable") ltac:(discriminate) eq_refl)).
Defined.

Lemma page_without_word_stays_idle_witness :
  pending (TranslatePage.mounted_page no_word) = [].
Proof.
  exact (proj1
    (page_without_word_stays_idle no_word (TranslatePage.mounted_page no_word)
       eq_refl
       (reachable_here TranslatePage.apply (TranslatePage.handler no_word) _))).
Defined.

Lemma hund_busy_reachable :
  reachable TranslatePage.apply (TranslatePage.handler hund)
    (TranslatePage.mounted_page hund) hund_busy.
Proof.
  unfold hund_busy.
  do 2 apply press_reachable. do 2 apply settle_reachable. constructor.
Qed.

Lemma hund_shown_reachable :
  reachable TranslatePage.apply (TranslatePage.handler hund)
    (TranslatePage.mounted_page hund) hund_shown.
Proof.
  unfold hund_shown. do 2 apply settle_reachable. constructor.
Qed.

Lemma busy_flags_mirror_pending_runs_witness :
  TranslatePage.saving (ui hund_busy) = true
  <-> started_by TranslatePage.is_accept hund_busy = 1%nat.
Proof.
  exact (proj1
    (busy_flags_mirror_pending_runs hund hund_busy hund_busy_reachable
       eq_refl)).
Defined.

Lemma draft_and_choice_are_never_cleared_witness :
  is_Some (TranslatePage.cardData (ui hund_busy)).
Proof.
  assert (Hlater : reachable TranslatePage.apply (TranslatePage.handler hund)
                     hund_shown hund_busy).
  { unfold hund_busy. fold hund_shown. do 2 apply press_reachable.
    constructor. }
  assert (Hheld : is_Some (TranslatePage.cardData (ui hund_shown))).
  { eexists. reflexivity. }
  exact (proj1
    (draft_and_choice_are_never_cleared hund hund_shown hund_busy
       hund_shown_reachable Hlater) Hheld).
Defined.

Lemma duplicate_verdict_offers_the_choice_witness :
  final (WordSelectPage.run (answering duplicate_found)
           (WordSelectPage.handleWordClick photo_words "Hund")
           (WordSelectPage.initial ""))
  = WordSelectPage.mkState None
      (Some (WordSelectPage.mkDuplicate "Hund" "similar to 'der Hund'" None))
      "" "/words".
Proof.
  exact (proj1
    (duplicate_verdict_offers_the_choice photo_words (answering duplicate_found)
       (WordSelectPage.initial "") "Hund"
       (mkDuplicateResult true None (Some "similar to 'der Hund'")) 1
       ltac:(discriminate) eq_refl ltac:(discriminate) eq_refl eq_refl)).
Defined.

Lemma checking_mirrors_the_pending_check_witness :
  WordSelectPage.is_checking (ui hund_tapped) = true
  <-> in_flight any_call hund_tapped = 1%nat.
Proof.
  assert (H : reachable WordSelectPage.apply
                (WordSelectPage.on_click photo_words)
                (WordSelectPage.mounted_page "") hund_tapped).
  { unfold hund_tapped. apply press_reachable. constructor. }
  exact (checking_mirrors_the_pending_check photo_words "" hund_tapped H
           eq_refl).
Defined.

Lemma login_stores_token_and_enters_witness :
  getToken (LoginPage.session
              (final (LoginPage.click login_ok LoginPage.handleSubmit login_form)))
  = Some "jwt".
Proof.
  exact (proj1 (proj2
    (login_stores_token_and_enters login_ok login_form
       (LoginPage.mkLoginResult "jwt") eq_refl))).
Defined.

Lemma failed_login_leaves_session_alone_witness :
  final (LoginPage.click login_wrong LoginPage.handleSubmit login_form)
  = LoginPage.mkState "testuser" "testpass123" "Incorrect username or password"
      false signed_out "/login".
Proof.
  exact (proj1
    (failed_login_leaves_session_alone login_wrong login_form
       (ErrorInstance "Incorrect username or password") eq_refl)).
Defined.

Lemma failed_extraction_keeps_earlier_words_witness :
  final (CameraPage.run ocr_down (CameraPage.handleFile (Some "photo"))
           camera_idle)
  = CameraPage.mkState false "OCR engine unavailable" ["Katze"] "/".
Proof.
  exact (proj1
    (failed_extraction_keeps_earlier_words ocr_down camera_idle "photo"
       (ErrorInstance "OCR engine unavailable") eq_refl)).
Defined.

Lemma extracted_words_become_word_buttons_witness :
  final (CameraPage.run ocr_reads (CameraPage.handleFile (Some "photo"))
           camera_idle)
  = CameraPage.mkState false "" ["Fuchs"; "Hund"; "Garten"] "/words".
Proof.
  exact (proj1
    (extracted_words_become_word_buttons ocr_reads camera_idle "photo"
       (CameraPage.mkOcrResult ["Fuchs"; "Hund"; "Garten"]
          "Der Fuchs, der Hund, der Garten")
       "German::Vocabulary" "" 1 eq_refl)).
Defined.


Lemma save_message_colour_follows_text_witness :
  ConfigPage.message
    (final (ConfigPage.click settings_down ConfigPage.handleSave settings_opened))
  = "Failed to save"
  /\ ConfigPage.message_colour
       (final (ConfigPage.click settings_down ConfigPage.handleSave
                 settings_opened))
     = Some ConfigPage.green.
Proof.
  exact (save_message_colour_follows_text settings_down settings_opened eq_refl).
Defined.

Lemma first_deck_languages_are_shown_witness :
  ConfigPage.selectedDeckId
    (final (ConfigPage.click settings_fine ConfigPage.sync_languages
              (final (ConfigPage.click settings_fine ConfigPage.loadData
                        settings_opened))))
  = "German::Vocabulary".
Proof.
  exact (proj1
    (first_deck_languages_are_shown settings_fine settings_opened german
       [french] learner eq_refl eq_refl eq_refl)).
Defined.

Lemma loading_views_are_waited_out_witness :
  (1 <= in_flight is_loading_call (TranslatePage.mounted_page hund))%nat.
Proof.
  exact (proj2 (proj2
    (loading_views_are_waited_out hund (TranslatePage.mounted_page hund)
       ltac:(discriminate)
       (reachable_here TranslatePage.apply (TranslatePage.handler hund) _)
       eq_refl (or_introl eq_refl)))).
Defined.

End MoreExamples.
